(** * Progress board widget: model of [progress_board_widget.py]

    A shallow embedding of the logic of [ProgressBoardWidget]: the stage
    checklist, the repo index cache keyed by modification time, and the
    completion trigger.  Qt objects are modelled by the part of their state
    the widget's code reads or writes. *)

From Stdlib Require Import ZArith NArith Ascii.
From Stdlib Require QArith DecimalString.
From stdpp Require Import gmap strings list fin_maps.

#[local] Set Warnings "-register-all,-clear-no-such-hyp".

Local Open Scope N_scope.

(** ** Python strings

    A string is a sequence of code points; the model covers the code points
    U+0000 to U+00FF, one per [ascii].  On that range [lower] and [strip]
    are Python's [str.lower] and [str.strip]. *)
Module PyStr.

Definition lower_char (c : ascii) : ascii :=
  let n := N_of_ascii c in
  if (65 <=? n) && (n <=? 90) then ascii_of_N (n + 32)
  else if (192 <=? n) && (n <=? 222) && negb (n =? 215) then ascii_of_N (n + 32)
  else c.

Fixpoint lower (s : string) : string :=
  match s with
  | EmptyString => EmptyString
  | String c r => String (lower_char c) (lower r)
  end.

(** [str.isspace] on one code point below U+0100. *)
Definition is_space (c : ascii) : bool :=
  let n := N_of_ascii c in
  ((9 <=? n) && (n <=? 13)) || ((28 <=? n) && (n <=? 32))
  || (n =? 133) || (n =? 160).

Fixpoint lstrip (s : string) : string :=
  match s with
  | EmptyString => EmptyString
  | String c r => if is_space c then lstrip r else s
  end.

Fixpoint rstrip (s : string) : string :=
  match s with
  | EmptyString => EmptyString
  | String c r =>
      match rstrip r with
      | EmptyString => if is_space c then EmptyString else String c EmptyString
      | r' => String c r'
      end
  end.

Definition strip (s : string) : string := rstrip (lstrip s).

(** [bool(s)]: a string is truthy when it is not empty. *)
Definition truthy (s : string) : bool := negb (String.eqb s "").

(** [sep.join(parts)]. *)
Fixpoint join (sep : string) (parts : list string) : string :=
  match parts with
  | [] => ""
  | [p] => p
  | p :: rest => p +:+ sep +:+ join sep rest
  end.

End PyStr.

Local Close Scope N_scope.

(** ** Checklist items *)

(** [Qt.CheckState]. *)
Inductive CheckState := Unchecked | PartiallyChecked | Checked.

Global Instance CheckState_eq_dec : EqDecision CheckState.
Proof. solve_decision. Defined.

(** The state of a [QListWidgetItem] the widget uses: the [UserRole] data
    (the stage id), the text and the check state. *)
Record item := Item {
  item_data : string;
  item_text : string;
  item_check : CheckState
}.

Definition setText (text : string) (it : item) : item :=
  Item (item_data it) text (item_check it).

Definition setCheckState (state : CheckState) (it : item) : item :=
  Item (item_data it) (item_text it) state.

Definition _DONE_STATUSES : list string := ["completed"; "attention"; "blocked"].

Definition in_done_statuses (s : string) : bool :=
  bool_decide (s ∈ _DONE_STATUSES).

Definition _check_state_for_status (status : string) : CheckState :=
  let normalized := PyStr.strip (PyStr.lower status) in
  if in_done_statuses normalized then Checked
  else if String.eqb normalized "running" then PartiallyChecked
  else if String.eqb normalized "pending" then Unchecked
  else PartiallyChecked.

(** The loop of [_message_suffix], over the messages already reversed. *)
Fixpoint _message_suffix_loop (reversed : list string) : string :=
  match reversed with
  | [] => ""
  | message :: rest =>
      let text := PyStr.strip message in
      if PyStr.truthy text then " (" +:+ text +:+ ")"
      else _message_suffix_loop rest
  end.

Definition _message_suffix (messages : list string) : string :=
  _message_suffix_loop (rev messages).

(** [status or "pending"], for a status that is [None] or a string. *)
Definition status_or_pending (status : option string) : string :=
  match status with
  | Some s => if PyStr.truthy s then s else "pending"
  | None => "pending"
  end.

Definition _apply_stage_state (it : item) (title : string)
    (status : option string) (messages : list string) : item * bool :=
  let status_text := status_or_pending status in
  let message_suffix := _message_suffix messages in
  let it := setText (title +:+ " - " +:+ status_text +:+ message_suffix) it in
  let normalized_status := PyStr.lower status_text in
  let it := setCheckState (_check_state_for_status normalized_status) it in
  (it, in_done_statuses normalized_status).

(** ** Decoded JSON values

    What [json.loads] returns: [None], [bool], [int], [float] (finite, as a
    rational), [str], [list] and [dict].  A [dict] is the list of its
    items, in order, each key once; [py_get] is [dict.get], which answers
    [None] for a missing key. *)
Inductive json :=
  | JNull
  | JBool (b : bool)
  | JInt (z : Z)
  | JFloat (q : QArith_base.Q)
  | JStr (s : string)
  | JArr (elements : list json)
  | JObj (fields : list (string * json)).

Fixpoint assoc_get {V : Type} (key : string) (d : list (string * V)) : option V :=
  match d with
  | [] => None
  | (k, v) :: rest => if String.eqb key k then Some v else assoc_get key rest
  end.

Definition py_get (key : string) (d : list (string * json)) : json :=
  default JNull (assoc_get key d).

(** [bool(v)]. *)
Definition json_truthy (v : json) : bool :=
  match v with
  | JNull => false
  | JBool b => b
  | JInt z => negb (Z.eqb z 0)
  | JFloat q => negb (Z.eqb (QArith_base.Qnum q) 0)
  | JStr s => PyStr.truthy s
  | JArr l => match l with [] => false | _ => true end
  | JObj o => match o with [] => false | _ => true end
  end.

(** ** Exceptions

    The exceptions that can reach the widget's code and that it does not
    catch.  [OSError] and [json.JSONDecodeError] are not among them: the
    code catches them where they can arise. *)
Inductive exn :=
  | AttributeError
  | ValueError
  | UnicodeDecodeError
  | UnicodeEncodeError
  | RecursionError
  | RuntimeError.

Global Instance exn_eq_dec : EqDecision exn.
Proof. solve_decision. Defined.

Inductive outcome (A : Type) :=
  | Returned (a : A)
  | Raised (e : exn).
Arguments Returned {A} a.
Arguments Raised {A} e.

(** What a call does that the code guards by [try ... except]: it returns,
    it raises an exception of a class the handler names, or it raises
    another one, which the handler lets through. *)
Inductive attempt (A : Type) :=
  | Ok (a : A)
  | Caught
  | Uncaught (e : exn).
Arguments Ok {A} a.
Arguments Caught {A}.
Arguments Uncaught {A} e.

(** What the code takes from the Python runtime: the text [str] gives for a
    value that is not a [str], and the [pathlib] operations on paths, kept
    as their strings.  [Path.resolve] can raise: [ValueError] on a path
    with a NUL character, [RuntimeError] on a loop of symbolic links. *)
Class PyRuntime := {
  str_of_value : json -> string;
  path_parent : string -> string;
  path_join : string -> string -> string;
  path_resolve : string -> outcome string
}.

(** ** Repo index entries and the cache *)

Module RepoEntry.
Record t := Make {
  repo_id : string;
  display_name : string;
  status : string;
  updated_at : string;
  messages : list string;
  detail_path : option string
}.
End RepoEntry.

Module CacheEntry.
Record t := Make {
  path : string;
  mtime : Z;
  entries : list RepoEntry.t
}.
End CacheEntry.

(** A file as the widget sees it: the modification time [stat] reports, and
    what [json.loads(path.read_text(encoding="utf-8"))] does on it.  Of the
    failures, [_read_json_payload] catches [OSError] and
    [json.JSONDecodeError]; it lets through [UnicodeDecodeError] (contents
    that are not UTF-8), [ValueError] (an integer of too many digits) and
    [RecursionError] (nesting too deep).  The code only compares
    modification times for equality; they are integers here. *)
Record file := File {
  st_mtime : Z;
  decoded : attempt json
}.

(** What [path.stat()] does on each path: [_safe_stat] catches [OSError];
    it lets through the [ValueError] of a path with a NUL character. *)
Definition filesystem := string -> attempt file.

Inductive event :=
  | EvStat (p : string)
  | EvRead (p : string)
  | EvTimerStop
  | EvBoardCompleted.

Global Instance event_eq_dec : EqDecision event.
Proof. solve_decision. Defined.

Definition _safe_stat (fs : filesystem) (path : string) : outcome (option Z) :=
  match fs path with
  | Ok f => Returned (Some (st_mtime f))
  | Caught => Returned None
  | Uncaught e => Raised e
  end.

(** Opening a path that cannot be stat-ed fails as the stat does. *)
Definition _read_json_payload (fs : filesystem) (path : string)
    : outcome (option json) :=
  match fs path with
  | Ok f =>
      match decoded f with
      | Ok payload => Returned (Some payload)
      | Caught => Returned None
      | Uncaught e => Raised e
      end
  | Caught => Returned None
  | Uncaught e => Raised e
  end.

Section Normalize.
Context {rt : PyRuntime}.

(** [str(v)]. *)
Definition py_str (v : json) : string :=
  match v with
  | JStr s => s
  | _ => str_of_value v
  end.

(** [str(v or fallback)], for a string [fallback]. *)
Definition str_or (v : json) (fallback : string) : string :=
  if json_truthy v then py_str v else fallback.

Definition _normalized_messages (messages_raw : json) : list string :=
  match messages_raw with
  | JArr l =>
      map (fun msg => PyStr.strip (py_str msg))
          (filter (fun msg => PyStr.truthy (PyStr.strip (py_str msg)) = true) l)
  | JStr s =>
      let text := PyStr.strip s in
      if PyStr.truthy text then [text] else []
  | _ => []
  end.

(** The [detail_path] of an entry: resolved when the entry gives a string
    that is not empty. *)
Definition resolve_detail_path (detail_path_obj : json) (entries_dir : string)
    : outcome (option string) :=
  match detail_path_obj with
  | JStr d =>
      if PyStr.truthy d then
        match path_resolve (path_join entries_dir d) with
        | Returned resolved => Returned (Some resolved)
        | Raised e => Raised e
        end
      else Returned None
  | _ => Returned None
  end.

Definition _normalize_repo_entry (entry : json) (entries_dir : string)
    : outcome (option RepoEntry.t) :=
  match entry with
  | JObj fields =>
      let repo_id := str_or (py_get "repo_id" fields) "" in
      let display :=
        str_or (py_get "display_name" fields)
               (if PyStr.truthy repo_id then repo_id else "<repo>") in
      let status := str_or (py_get "status" fields) "pending" in
      let updated_at := str_or (py_get "updated_at" fields) "" in
      let message_preview := _normalized_messages (py_get "message_preview" fields) in
      match resolve_detail_path (py_get "detail_path" fields) entries_dir with
      | Raised e => Raised e
      | Returned detail_path =>
          Returned (Some (RepoEntry.Make repo_id display status updated_at
                            message_preview detail_path))
      end
  | _ => Returned None
  end.

(** The loop of [_normalize_repo_entries]; it stops where normalizing an
    entry raises. *)
Fixpoint normalize_loop (entries : list json) (entries_dir : string)
    (normalized_entries : list RepoEntry.t) : outcome (list RepoEntry.t) :=
  match entries with
  | [] => Returned normalized_entries
  | entry :: rest =>
      match _normalize_repo_entry entry entries_dir with
      | Raised e => Raised e
      | Returned None => normalize_loop rest entries_dir normalized_entries
      | Returned (Some normalized_entry) =>
          normalize_loop rest entries_dir (normalized_entries ++ [normalized_entry])
      end
  end.

Definition _normalize_repo_entries (entries_payload : json) (entries_dir : string)
    : outcome (list RepoEntry.t) :=
  match entries_payload with
  | JArr l => normalize_loop l entries_dir []
  | _ => Returned []
  end.

(** [_load_repo_index_payload]: the file operations it performs, and what
    it returns.  A decoded payload that is neither [None] nor a [dict]
    has no [get].  What the stat, the read or the normalization raises
    goes through. *)
Definition _load_repo_index_payload (cache : gmap string CacheEntry.t)
    (fs : filesystem) (stage_id : string) (metadata : list (string * json))
    : list event * outcome (option CacheEntry.t) :=
  let index_path_obj := py_get "repo_progress_index_path" metadata in
  if negb (json_truthy index_path_obj) then ([], Returned None)
  else
    let index_path := py_str index_path_obj in
    match _safe_stat fs index_path with
    | Raised e => ([EvStat index_path], Raised e)
    | Returned None => ([EvStat index_path], Returned None)
    | Returned (Some mtime) =>
        let hit :=
          match cache !! stage_id with
          | Some cached =>
              if Z.eqb (CacheEntry.mtime cached) mtime then Some cached else None
          | None => None
          end in
        match hit with
        | Some cached => ([EvStat index_path], Returned (Some cached))
        | None =>
            let ops := [EvStat index_path; EvRead index_path] in
            match _read_json_payload fs index_path with
            | Raised e => (ops, Raised e)
            | Returned None | Returned (Some JNull) => (ops, Returned None)
            | Returned (Some (JObj payload)) =>
                let entries_dir :=
                  str_or (py_get "entries_dir" payload) (path_parent index_path) in
                match _normalize_repo_entries (py_get "entries" payload) entries_dir with
                | Raised e => (ops, Raised e)
                | Returned entries =>
                    (ops, Returned (Some (CacheEntry.Make index_path mtime entries)))
                end
            | Returned (Some _) => (ops, Raised AttributeError)
            end
        end
    end.

End Normalize.

(** ** Snapshots

    A stage of the snapshot, with each attribute the widget reads through
    [getattr]: [None] stands for an attribute the object does not have.
    [status] is [Some None] for Python's [None].  [metadata] is [None] also
    for a value that is not a [dict]. *)
Module Stage.
Record t := Make {
  stage_id : option string;
  title : option string;
  status : option (option string);
  messages : option (list string);
  metadata : option (list (string * json))
}.
End Stage.

Module Snapshot.
Record t := Make {
  stages : list (string * Stage.t)
}.
End Snapshot.

(** [d[key] = value] on a [dict] in insertion order. *)
Fixpoint odict_set {V : Type} (key : string) (value : V) (d : list (string * V))
    : list (string * V) :=
  match d with
  | [] => [(key, value)]
  | (k, v) :: rest =>
      if String.eqb key k then (k, value) :: rest
      else (k, v) :: odict_set key value rest
  end.

(** The first loop of [_update_from_snapshot]: the stages keyed by their own
    [stage_id]. *)
Definition collect_stages (raw_stages : list (string * Stage.t))
    : list (string * Stage.t) :=
  foldl (fun stages '(maybe_id, stage) =>
           odict_set (default maybe_id (Stage.stage_id stage)) stage stages)
        [] raw_stages.

(** [getattr(stage, "status", "pending")] and [getattr(stage, "messages", ())]
    for [stage = stages.get(stage_id)]. *)
Definition getattr_status (stage : option Stage.t) : option string :=
  match stage with
  | Some s => default (Some "pending") (Stage.status s)
  | None => Some "pending"
  end.

Definition getattr_messages (stage : option Stage.t) : list string :=
  match stage with
  | Some s => default [] (Stage.messages s)
  | None => []
  end.

(** ** The widget *)

Record detail_row := DetailRow {
  col_repository : string;
  col_status : string;
  col_updated : string;
  col_messages : string;
  col_messages_tooltip : option string
}.

(** [_items] maps a stage id to its item; the items themselves live in the
    checklist, in row order, and [_items] holds the row of each.
    [_checklist_selection] is the row Qt has selected.  [trace] records, in
    order, the file operations, timer stops and signal emissions. *)
Record widget := Widget {
  _stage_definitions : list (string * string);
  _items : gmap string nat;
  _checklist : list item;
  _checklist_selection : option nat;
  _completion_triggered : bool;
  _repo_index_cache : gmap string CacheEntry.t;
  _selected_stage_id : option string;
  _status_label : string;
  _detail_table : list detail_row;
  _timer_active : bool;
  trace : list event
}.

Definition with_stage_definitions v w :=
  Widget v (_items w) (_checklist w) (_checklist_selection w)
    (_completion_triggered w) (_repo_index_cache w) (_selected_stage_id w)
    (_status_label w) (_detail_table w) (_timer_active w) (trace w).
Definition with_items v w :=
  Widget (_stage_definitions w) v (_checklist w) (_checklist_selection w)
    (_completion_triggered w) (_repo_index_cache w) (_selected_stage_id w)
    (_status_label w) (_detail_table w) (_timer_active w) (trace w).
Definition with_checklist v w :=
  Widget (_stage_definitions w) (_items w) v (_checklist_selection w)
    (_completion_triggered w) (_repo_index_cache w) (_selected_stage_id w)
    (_status_label w) (_detail_table w) (_timer_active w) (trace w).
Definition with_checklist_selection v w :=
  Widget (_stage_definitions w) (_items w) (_checklist w) v
    (_completion_triggered w) (_repo_index_cache w) (_selected_stage_id w)
    (_status_label w) (_detail_table w) (_timer_active w) (trace w).
Definition with_completion_triggered v w :=
  Widget (_stage_definitions w) (_items w) (_checklist w) (_checklist_selection w)
    v (_repo_index_cache w) (_selected_stage_id w)
    (_status_label w) (_detail_table w) (_timer_active w) (trace w).
Definition with_repo_index_cache v w :=
  Widget (_stage_definitions w) (_items w) (_checklist w) (_checklist_selection w)
    (_completion_triggered w) v (_selected_stage_id w)
    (_status_label w) (_detail_table w) (_timer_active w) (trace w).
Definition with_selected_stage_id v w :=
  Widget (_stage_definitions w) (_items w) (_checklist w) (_checklist_selection w)
    (_completion_triggered w) (_repo_index_cache w) v
    (_status_label w) (_detail_table w) (_timer_active w) (trace w).
Definition with_status_label v w :=
  Widget (_stage_definitions w) (_items w) (_checklist w) (_checklist_selection w)
    (_completion_triggered w) (_repo_index_cache w) (_selected_stage_id w)
    v (_detail_table w) (_timer_active w) (trace w).
Definition with_detail_table v w :=
  Widget (_stage_definitions w) (_items w) (_checklist w) (_checklist_selection w)
    (_completion_triggered w) (_repo_index_cache w) (_selected_stage_id w)
    (_status_label w) v (_timer_active w) (trace w).
Definition with_timer_active v w :=
  Widget (_stage_definitions w) (_items w) (_checklist w) (_checklist_selection w)
    (_completion_triggered w) (_repo_index_cache w) (_selected_stage_id w)
    (_status_label w) (_detail_table w) v (trace w).
Definition with_trace v w :=
  Widget (_stage_definitions w) (_items w) (_checklist w) (_checklist_selection w)
    (_completion_triggered w) (_repo_index_cache w) (_selected_stage_id w)
    (_status_label w) (_detail_table w) (_timer_active w) v.

Definition emit (ev : event) (w : widget) : widget :=
  with_trace (trace w ++ [ev]) w.

(** [self._timer.stop()]. *)
Definition timer_stop (w : widget) : widget :=
  emit EvTimerStop (with_timer_active false w).

(** The loop of [_build_ui] that fills the checklist. *)
Fixpoint build_items (defs : list (string * string)) (rows : list item)
    (items : gmap string nat) : list item * gmap string nat :=
  match defs with
  | [] => (rows, items)
  | (stage_id, title) :: rest =>
      build_items rest
        (rows ++ [Item stage_id (title +:+ " - pending") Unchecked])
        (<[stage_id := length rows]> items)
  end.

(** [__init__] with [_build_ui]. *)
Definition init (stage_definitions : list (string * string)) : widget :=
  let '(rows, items) := build_items stage_definitions [] ∅ in
  {| _stage_definitions := stage_definitions;
     _items := items;
     _checklist := rows;
     _checklist_selection := match rows with [] => None | _ => Some 0 end;
     _completion_triggered := false;
     _repo_index_cache := ∅;
     _selected_stage_id := item_data <$> head rows;
     _status_label := "Initializing orchestration tooling...";
     _detail_table := [];
     _timer_active := true;
     trace := [] |}.

Definition _current_stage_id (w : widget) : option string :=
  match _checklist_selection w with
  | Some row => item_data <$> (_checklist w !! row)
  | None => None
  end.

Definition detail_row_of (entry : RepoEntry.t) : detail_row :=
  let display :=
    if PyStr.truthy (RepoEntry.display_name entry) then RepoEntry.display_name entry
    else if PyStr.truthy (RepoEntry.repo_id entry) then RepoEntry.repo_id entry
    else "<repo>" in
  let status :=
    if PyStr.truthy (RepoEntry.status entry) then RepoEntry.status entry
    else "pending" in
  let message_text :=
    PyStr.join " | "
      (filter (fun msg => PyStr.truthy (PyStr.strip msg) = true)
              (RepoEntry.messages entry)) in
  let tooltip :=
    match RepoEntry.detail_path entry with
    | Some p => if PyStr.truthy p then Some p else None
    | None => None
    end in
  DetailRow display status (RepoEntry.updated_at entry) message_text tooltip.

Definition _update_detail_view (w : widget) (stage_id : option string) : widget :=
  match stage_id with
  | None => with_detail_table [] w
  | Some sid =>
      match _repo_index_cache w !! sid with
      | None => with_detail_table [] w
      | Some cache_entry =>
          with_detail_table (map detail_row_of (CacheEntry.entries cache_entry)) w
      end
  end.

Definition _handle_stage_selection (w : widget) : widget :=
  let stage_id := _current_stage_id w in
  _update_detail_view (with_selected_stage_id stage_id w) stage_id.

Definition _handle_completion (w : widget) : widget :=
  if _completion_triggered w then w
  else emit EvBoardCompleted (timer_stop (with_completion_triggered true w)).

Definition closeEvent (w : widget) : widget := timer_stop w.

(** The second loop of [_update_from_snapshot]: a checklist item for each
    stage id not yet tracked. *)
Fixpoint discover_loop (stages : list (string * Stage.t)) (w : widget) : widget :=
  match stages with
  | [] => w
  | (stage_id, stage) :: rest =>
      match _items w !! stage_id with
      | Some _ => discover_loop rest w
      | None =>
          let title := default stage_id (Stage.title stage) in
          let row := length (_checklist w) in
          let w := with_checklist (_checklist w ++ [Item stage_id "" Unchecked]) w in
          let w := with_items (<[stage_id := row]> (_items w)) w in
          let w := with_stage_definitions (_stage_definitions w ++ [(stage_id, title)]) w in
          discover_loop rest w
      end
  end.

(** The third loop: every tracked stage gets its text and check state; the
    result carries [all_done]. *)
Fixpoint apply_loop (defs : list (string * string)) (items : gmap string nat)
    (stages : list (string * Stage.t)) (rows : list item) (all_done : bool)
    : list item * bool :=
  match defs with
  | [] => (rows, all_done)
  | (stage_id, title) :: rest =>
      match items !! stage_id with
      | None => apply_loop rest items stages rows all_done
      | Some row =>
          match rows !! row with
          | None => apply_loop rest items stages rows all_done
          | Some it =>
              let stage := assoc_get stage_id stages in
              let '(it, done) :=
                _apply_stage_state it title (getattr_status stage)
                                   (getattr_messages stage) in
              apply_loop rest items stages (<[row := it]> rows)
                         (if done then all_done else false)
          end
      end
  end.

Definition _prune_stale_repo_cache (cache : gmap string CacheEntry.t)
    (observed_ids : gset string) : gmap string CacheEntry.t :=
  let stale_keys :=
    filter (fun stage_id => stage_id ∉ observed_ids) (map fst (map_to_list cache)) in
  foldl (fun cache stage_id => delete stage_id cache) cache stale_keys.

Section Refresh.
Context {rt : PyRuntime}.

(** The loop of [_refresh_stage_repo_details], over the cache and the
    trace; it stops where loading raises. *)
Fixpoint refresh_loop (fs : filesystem) (stages : list (string * Stage.t))
    (cache : gmap string CacheEntry.t) (observed_ids : gset string)
    (tr : list event)
    : gmap string CacheEntry.t * list event * outcome (gset string) :=
  match stages with
  | [] => (cache, tr, Returned observed_ids)
  | (stage_id, stage) :: rest =>
      let observed_ids := observed_ids ∪ {[stage_id]} in
      let metadata := default [] (Stage.metadata stage) in
      let '(ops, cache_entry) := _load_repo_index_payload cache fs stage_id metadata in
      match cache_entry with
      | Raised e => (cache, tr ++ ops, Raised e)
      | Returned None =>
          refresh_loop fs rest (delete stage_id cache) observed_ids (tr ++ ops)
      | Returned (Some entry) =>
          refresh_loop fs rest (<[stage_id := entry]> cache) observed_ids (tr ++ ops)
      end
  end.

Definition _refresh_stage_repo_details (w : widget) (fs : filesystem)
    (stages : list (string * Stage.t)) : widget * outcome unit :=
  let '(cache, tr, res) :=
    refresh_loop fs stages (_repo_index_cache w) ∅ (trace w) in
  let w := with_trace tr (with_repo_index_cache cache w) in
  match res with
  | Raised e => (w, Raised e)
  | Returned observed_ids =>
      (with_repo_index_cache (_prune_stale_repo_cache cache observed_ids) w,
       Returned tt)
  end.

(** The stages of the snapshot as the update sees them, and the flag the
    third loop computes. *)
Definition snapshot_stages (snapshot : Snapshot.t) : list (string * Stage.t) :=
  collect_stages (Snapshot.stages snapshot).

(** The first half of [_update_from_snapshot]: the checklist is merged with
    the stages, and [all_done] computed. *)
Definition merge_stages (w : widget) (stages : list (string * Stage.t))
    : widget * bool :=
  let w := discover_loop stages w in
  let '(rows, all_done) :=
    apply_loop (_stage_definitions w) (_items w) stages (_checklist w) true in
  (with_checklist rows w, all_done).

Definition _update_from_snapshot (w : widget) (fs : filesystem)
    (snapshot : Snapshot.t) : widget * outcome unit :=
  let stages := snapshot_stages snapshot in
  let '(w, all_done) := merge_stages w stages in
  let '(w, res) := _refresh_stage_repo_details w fs stages in
  match res with
  | Raised e => (w, Raised e)
  | Returned _ =>
      let w := _update_detail_view w (_current_stage_id w) in
      let w :=
        match stages with
        | [] => w
        | _ =>
            if _completion_triggered w then w
            else if all_done then
              with_status_label "All stages reported. Waiting for tooling shutdown..." w
            else with_status_label "Tracking orchestration stages..." w
        end in
      (w, Returned tt)
  end.

(** [_refresh_snapshot], given what the world answers during the call:
    the snapshot [load_progress_snapshot] returns, the files, and whether
    the worker's event is set. *)
Definition _refresh_snapshot (w : widget) (snapshot : option Snapshot.t)
    (fs : filesystem) (worker_done : bool) : widget * outcome unit :=
  match snapshot with
  | None =>
      (if _completion_triggered w then w
       else with_status_label "Waiting for progress snapshot feed..." w,
       Returned tt)
  | Some snapshot =>
      let '(w, res) := _update_from_snapshot w fs snapshot in
      match res with
      | Raised e => (w, Raised e)
      | Returned _ =>
          if worker_done && negb (_completion_triggered w) then
            (_handle_completion
               (with_status_label "Tooling finished. Command center unlocking..." w),
             Returned tt)
          else (w, Returned tt)
      end
  end.

(** What can happen to the widget: a poll, a change of the selected row,
    the completion handler, the window closing. *)
Inductive op :=
  | OpRefreshSnapshot (snapshot : option Snapshot.t) (fs : filesystem)
                      (worker_done : bool)
  | OpSelectRow (row : option nat)
  | OpHandleCompletion
  | OpClose.

Definition select_row (row : option nat) (w : widget) : widget :=
  match row with
  | Some r =>
      if decide (r < length (_checklist w)) then with_checklist_selection (Some r) w
      else with_checklist_selection None w
  | None => with_checklist_selection None w
  end.

Definition step (w : widget) (o : op) : widget :=
  match o with
  | OpRefreshSnapshot snapshot fs worker_done =>
      fst (_refresh_snapshot w snapshot fs worker_done)
  | OpSelectRow row => _handle_stage_selection (select_row row w)
  | OpHandleCompletion => _handle_completion w
  | OpClose => closeEvent w
  end.

Definition run (w : widget) (ops : list op) : widget := foldl step w ops.

End Refresh.


(** ** Notions the properties are stated with *)


(** The status text the update shows for a stage id: that of
    [stages.get(stage_id)], "pending" when there is none. *)
Definition stage_status_text (stages : list (string * Stage.t))
    (stage_id : string) : string :=
  status_or_pending (getattr_status (assoc_get stage_id stages)).

(** A done-status: one of [_DONE_STATUSES] in any letter case. *)
Definition is_done_status (s : string) : Prop :=
  PyStr.lower s ∈ _DONE_STATUSES.


(** The item a stage leaves in its row. *)
Definition stage_item (title : string) (stage : option Stage.t) (it : item)
    : item :=
  (_apply_stage_state it title (getattr_status stage) (getattr_messages stage)).1.

(** What [__init__] and the updates keep true of the checklist: every item
    [_items] refers to is a row of the checklist, two stage ids never share
    an item, and the stage definitions name tracked stages, each once. *)
Record widget_wf (w : widget) : Prop := WidgetWf {
  wf_rows : ∀ id row, _items w !! id = Some row → row < length (_checklist w);
  wf_inj : ∀ id1 id2 row,
    _items w !! id1 = Some row → _items w !! id2 = Some row → id1 = id2;
  wf_tracked : ∀ id, id ∈ (_stage_definitions w).*1 → is_Some (_items w !! id);
  wf_nodup : NoDup (_stage_definitions w).*1
}.

(** How often an event occurs in a trace. *)
Definition occurrences (ev : event) (tr : list event) : nat :=
  length (filter (fun e => e = ev) tr).

(** A stage of the snapshot under the id the update files it under. *)
Definition rekey (entry : string * Stage.t) : string * Stage.t :=
  (default entry.1 (Stage.stage_id entry.2), entry.2).



(** Two widgets with the same checklist, stage definitions and completion
    state; what the repo details, the detail view and the banner leave
    alone. *)
Definition same_board (w w' : widget) : Prop :=
  _checklist w' = _checklist w
  ∧ _items w' = _items w
  ∧ _stage_definitions w' = _stage_definitions w
  ∧ _completion_triggered w' = _completion_triggered w
  ∧ _timer_active w' = _timer_active w.

(** The two events of the completion handler. *)
Definition completion_event (ev : event) : Prop :=
  ev = EvTimerStop ∨ ev = EvBoardCompleted.

(** What the loop leaves under a stage id: what loading that stage returned. *)
Definition cached_after (loaded : outcome (option CacheEntry.t))
    : option CacheEntry.t :=
  match loaded with
  | Returned (Some entry) => Some entry
  | _ => None
  end.

(** What a load returns after reading the file. *)
Definition reloaded {rt : PyRuntime} (index_path : string) (f : file)
    : outcome (option CacheEntry.t) :=
  match decoded f with
  | Uncaught e => Raised e
  | Caught | Ok JNull => Returned None
  | Ok (JObj payload) =>
      match _normalize_repo_entries (py_get "entries" payload)
              (str_or (py_get "entries_dir" payload) (path_parent index_path)) with
      | Raised e => Raised e
      | Returned entries =>
          Returned (Some (CacheEntry.Make index_path (st_mtime f) entries))
      end
  | Ok _ => Raised AttributeError
  end.

(** ** A runtime for the examples

    [str] of [None], of a [bool] and of an [int] as Python prints them;
    floats and containers by a tag, which no example looks into.  Paths are
    POSIX paths, already absolute and free of links; one with a NUL
    character can be neither resolved nor stat-ed, [ValueError]. *)
Definition example_str (v : json) : string :=
  match v with
  | JNull => "None"
  | JBool true => "True"
  | JBool false => "False"
  | JInt z => DecimalString.NilZero.string_of_int (Z.to_int z)
  | JFloat _ => "<float>"
  | JStr s => s
  | JArr _ => "[...]"
  | JObj _ => "{...}"
  end.

Fixpoint drop_last_component (reversed : list ascii) : list ascii :=
  match reversed with
  | [] => []
  | c :: rest => if Ascii.eqb c "/" then rest else drop_last_component rest
  end.

Definition example_parent (p : string) : string :=
  match String.string_of_list_ascii
          (rev (drop_last_component (rev (String.list_ascii_of_string p)))) with
  | EmptyString => match p with String "/" _ => "/" | _ => "." end
  | parent => parent
  end.

Definition example_join (base d : string) : string :=
  match d with
  | String "/" _ => d
  | _ => base +:+ "/" +:+ d
  end.

Fixpoint has_nul (p : string) : bool :=
  match p with
  | EmptyString => false
  | String c rest => Ascii.eqb c "000" || has_nul rest
  end.

Definition example_resolve (p : string) : outcome string :=
  if has_nul p then Raised ValueError else Returned p.

Definition example_runtime : PyRuntime := {|
  str_of_value := example_str;
  path_parent := example_parent;
  path_join := example_join;
  path_resolve := example_resolve
|}.


(** An index file for the stage alpha, with a modification time and what it
    decodes to; a stage that names it; an entry cached for it earlier. *)
Definition example_fs (mtime : Z) (content : attempt json) : filesystem :=
  fun p =>
    if has_nul p then Uncaught ValueError
    else if String.eqb p "/idx/alpha.json" then Ok (File mtime content)
    else Caught.

Definition example_stage : Stage.t :=
  Stage.Make (Some "alpha") (Some "Alpha") (Some (Some "running")) (Some [])
             (Some [("repo_progress_index_path", JStr "/idx/alpha.json")]).

Definition example_cached : CacheEntry.t :=
  CacheEntry.Make "/idx/alpha.json" 1
    [RepoEntry.Make "core" "core" "running" "" [] None].

Definition example_widget : widget :=
  with_repo_index_cache {[ "alpha" := example_cached ]}
                        (init [("alpha", "Alpha")]).


(** ** Notions of the further properties *)

(** The row [__init__] gives a stage definition. *)
Definition initial_row (def : string * string) : item :=
  Item def.1 (def.2 +:+ " - pending") Unchecked.

(** The checklist and the stage definitions go together: the rows carry the
    ids of the stage definitions, in order, and the item [_items] holds for
    an id carries that id. *)
Definition rows_mirror_definitions (w : widget) : Prop :=
  item_data <$> _checklist w = (_stage_definitions w).*1
  ∧ ∀ id row, _items w !! id = Some row →
      item_data <$> (_checklist w !! row) = Some id.

(** The stage definition the update appends for a stage it discovers. *)
Definition discovered_definition (entry : string * Stage.t) : string * string :=
  (entry.1, default entry.1 (Stage.title entry.2)).

(** The stages of a snapshot the widget does not track yet, in order. *)
Definition untracked (w : widget) (stages : list (string * Stage.t))
    : list (string * Stage.t) :=
  filter (fun entry => _items w !! entry.1 = None) stages.

(** The rows [_update_detail_view] puts into the table for a stage id. *)
Definition detail_rows_for (cache : gmap string CacheEntry.t)
    (stage_id : option string) : list detail_row :=
  match stage_id with
  | None => []
  | Some sid =>
      match cache !! sid with
      | None => []
      | Some cache_entry => detail_row_of <$> CacheEntry.entries cache_entry
      end
  end.

(** The table shows the cached entries of the selected stage. *)
Definition detail_view_current (w : widget) : Prop :=
  _detail_table w = detail_rows_for (_repo_index_cache w) (_current_stage_id w).

(** A normalized entry: a display name and a status that are not empty, and
    messages that are trimmed and not blank. *)
Definition entry_normal (entry : RepoEntry.t) : Prop :=
  RepoEntry.display_name entry ≠ ""
  ∧ RepoEntry.status entry ≠ ""
  ∧ Forall (fun m => m ≠ "" ∧ PyStr.strip m = m) (RepoEntry.messages entry).

Definition is_object (v : json) : bool :=
  match v with
  | JObj _ => true
  | _ => false
  end.

(** The selected row is a row of the checklist. *)
Definition selection_valid (w : widget) : Prop :=
  match _checklist_selection w with
  | Some row => row < length (_checklist w)
  | None => True
  end.


(** Every cached entry is normalized. *)
Definition cache_normal (cache : gmap string CacheEntry.t) : Prop :=
  ∀ id cache_entry, cache !! id = Some cache_entry →
    Forall entry_normal (CacheEntry.entries cache_entry).

(** A stage names no index file, or names one whose stat fails with
    [OSError]. *)
Definition index_missing {rt : PyRuntime} (fs : filesystem) (stage : Stage.t)
    : Prop :=
  let index_path_obj :=
    py_get "repo_progress_index_path" (default [] (Stage.metadata stage)) in
  json_truthy index_path_obj = false ∨ fs (py_str index_path_obj) = Caught.

(** Every poll of the operations returns. *)
Fixpoint polls_return {rt : PyRuntime} (w : widget) (ops : list op) : Prop :=
  match ops with
  | [] => True
  | o :: rest =>
      match o with
      | OpRefreshSnapshot snapshot fs worker_done =>
          (_refresh_snapshot w snapshot fs worker_done).2 = Returned tt
      | _ => True
      end
      ∧ polls_return (step w o) rest
  end.


(** The cache holds, for these stages and files, what loading returns, and
    nothing else. *)
Definition cache_settled {rt : PyRuntime} (cache : gmap string CacheEntry.t)
    (fs : filesystem) (stages : list (string * Stage.t)) : Prop :=
  (∀ id stage, (id, stage) ∈ stages →
     (_load_repo_index_payload cache fs id (default [] (Stage.metadata stage))).2
     = Returned (cache !! id))
  ∧ (∀ id, id ∉ stages.*1 → cache !! id = None).


(** A snapshot with the stage alpha, and an index file with one entry. *)
Definition example_snapshot : Snapshot.t :=
  Snapshot.Make [("alpha", example_stage)].

Definition example_index : json :=
  JObj [("entries", JArr [JObj [("repo_id", JStr "core")]; JStr "stray"])].


(** * Properties *)

(** ** Strings *)

Lemma truthy_true (s : string) : PyStr.truthy s = true ↔ s ≠ "".
Proof.
  unfold PyStr.truthy. rewrite negb_true_iff. apply String.eqb_neq.
Qed.

Lemma truthy_false (s : string) : PyStr.truthy s = false ↔ s = "".
Proof.
  unfold PyStr.truthy. rewrite negb_false_iff. apply String.eqb_eq.
Qed.

Lemma lower_char_idem (c : ascii) :
  PyStr.lower_char (PyStr.lower_char c) = PyStr.lower_char c.
Proof. destruct c as [[] [] [] [] [] [] [] []]; reflexivity. Qed.

Lemma lower_idem (s : string) : PyStr.lower (PyStr.lower s) = PyStr.lower s.
Proof.
  induction s as [|c s IH]; simpl; [done|].
  by rewrite lower_char_idem, IH.
Qed.

Lemma lower_empty (s : string) : PyStr.lower s = "" → s = "".
Proof. by destruct s. Qed.

Example lower_mixed : PyStr.lower "BloCKed" = "blocked".
Proof. reflexivity. Qed.

Example strip_padded : PyStr.strip "  two words  " = "two words".
Proof. reflexivity. Qed.

(** ** Check state and text of one stage *)

Lemma in_done_statuses_true (s : string) :
  in_done_statuses s = true ↔ s ∈ _DONE_STATUSES.
Proof. unfold in_done_statuses. apply bool_decide_eq_true. Qed.

Lemma in_done_statuses_false (s : string) :
  in_done_statuses s = false ↔ s ∉ _DONE_STATUSES.
Proof. unfold in_done_statuses. apply bool_decide_eq_false. Qed.

Lemma done_statuses_stripped (s : string) :
  s ∈ _DONE_STATUSES → PyStr.strip s = s.
Proof.
  unfold _DONE_STATUSES. rewrite !elem_of_cons, elem_of_nil.
  intros [-> | [-> | [-> | []]]]; reflexivity.
Qed.

Lemma status_or_pending_nonempty (s : string) :
  s ≠ "" → status_or_pending (Some s) = s.
Proof. intros Hs. simpl. by apply truthy_true in Hs as ->. Qed.

Lemma apply_stage_state_check (it : item) (title : string)
    (status : option string) (messages : list string) :
  item_check (_apply_stage_state it title status messages).1
  = _check_state_for_status (status_or_pending status).
Proof.
  unfold _apply_stage_state, _check_state_for_status. simpl.
  by rewrite lower_idem.
Qed.

Lemma check_state_cases (s : string) :
  let key := PyStr.strip (PyStr.lower s) in
  (key ∈ _DONE_STATUSES → _check_state_for_status s = Checked) ∧
  (key = "running" → _check_state_for_status s = PartiallyChecked) ∧
  (key = "pending" → _check_state_for_status s = Unchecked) ∧
  (key ∉ _DONE_STATUSES → key ≠ "pending" →
   _check_state_for_status s = PartiallyChecked).
Proof.
  intros key. unfold _check_state_for_status. fold key.
  repeat split.
  - intros H. by apply in_done_statuses_true in H as ->.
  - by intros ->.
  - by intros ->.
  - intros Hnd Hnp. apply in_done_statuses_false in Hnd as ->.
    destruct (String.eqb key "running"); [done|].
    apply String.eqb_neq in Hnp. by rewrite Hnp.
Qed.

(** C1, as the code has it.  For a non-empty status, the check state of the
    item follows the status lower-cased and trimmed of surrounding
    whitespace: [Checked] for completed, attention and blocked,
    [PartiallyChecked] for running, [Unchecked] for pending, and
    [PartiallyChecked] for everything else.  In particular a status whose
    lower-cased value is one of the five names gets that name's state. *)
Theorem C1_check_state_by_status (it : item) (title s : string)
    (ms : list string) :
  s ≠ "" →
  let state := item_check (_apply_stage_state it title (Some s) ms).1 in
  let key := PyStr.strip (PyStr.lower s) in
  (PyStr.lower s ∈ _DONE_STATUSES → state = Checked) ∧
  (PyStr.lower s = "running" → state = PartiallyChecked) ∧
  (PyStr.lower s = "pending" → state = Unchecked) ∧
  (key ∈ _DONE_STATUSES → state = Checked) ∧
  (key = "running" → state = PartiallyChecked) ∧
  (key = "pending" → state = Unchecked) ∧
  (key ∉ _DONE_STATUSES → key ≠ "pending" → state = PartiallyChecked).
Proof.
  intros Hs state key. subst state.
  rewrite apply_stage_state_check, status_or_pending_nonempty by done.
  destruct (check_state_cases s) as (Hd & Hr & Hp & Ho). fold key in Hd, Hr, Hp, Ho.
  repeat split; try done.
  - intros H. apply Hd. subst key. by rewrite done_statuses_stripped.
  - intros H. apply Hr. subst key. by rewrite H.
  - intros H. apply Hp. subst key. by rewrite H.
Qed.

(** The theorem at the status "Completed". *)
Lemma C1_check_state_by_status_witness :
  "Completed" ≠ "" ∧
  item_check (_apply_stage_state (Item "alpha" "" Unchecked) "Alpha"
                                 (Some "Completed") []).1 = Checked.
Proof.
  split; [discriminate|].
  refine (proj1 (C1_check_state_by_status (Item "alpha" "" Unchecked) "Alpha"
                   "Completed" [] _) _); [discriminate|].
  vm_compute. constructor.
Defined.

(** C1 as the spec words it fails on a status padded with whitespace:
    " pending" is not empty and its lower-cased value is none of the five
    names, yet the item is left [Unchecked], not [PartiallyChecked]; and
    " completed" is [Checked]. *)
Lemma C1_padded_status_counterexample :
  (" pending" ≠ "" ∧
   (PyStr.lower " pending" ∉ _DONE_STATUSES) ∧
   PyStr.lower " pending" ≠ "running" ∧
   PyStr.lower " pending" ≠ "pending" ∧
   item_check (_apply_stage_state (Item "alpha" "" Unchecked) "Alpha"
                                  (Some " pending") []).1 = Unchecked) ∧
  ((PyStr.lower " completed" ∉ _DONE_STATUSES) ∧
   item_check (_apply_stage_state (Item "alpha" "" Unchecked) "Alpha"
                                  (Some " completed") []).1 = Checked).
Proof.
  repeat split; try discriminate; try reflexivity.
  - apply (bool_decide_eq_false_1 _). reflexivity.
  - apply (bool_decide_eq_false_1 _). reflexivity.
Qed.

Lemma string_app_cons (a : ascii) (s1 s2 : string) :
  String a s1 +:+ s2 = String a (s1 +:+ s2).
Proof. reflexivity. Qed.

Lemma string_app_empty_r (s : string) : s +:+ "" = s.
Proof.
  induction s as [|a s IH]; [reflexivity|].
  by rewrite string_app_cons, IH.
Qed.

Lemma message_suffix_loop_skip (l r : list string) :
  Forall (fun m => PyStr.strip m = "") l →
  _message_suffix_loop (l ++ r) = _message_suffix_loop r.
Proof.
  induction 1 as [|m l Hm _ IH]; simpl; [done|].
  apply truthy_false in Hm. by rewrite Hm.
Qed.

Lemma message_suffix_last (before : list string) (m : string)
    (after : list string) :
  PyStr.strip m ≠ "" →
  Forall (fun x => PyStr.strip x = "") after →
  _message_suffix (before ++ m :: after) = " (" +:+ PyStr.strip m +:+ ")".
Proof.
  intros Hm Hafter. unfold _message_suffix.
  rewrite rev_app_distr. simpl. rewrite <- app_assoc.
  rewrite message_suffix_loop_skip by by apply Forall_rev.
  simpl. by apply truthy_true in Hm as ->.
Qed.

Lemma message_suffix_blank (ms : list string) :
  Forall (fun x => PyStr.strip x = "") ms → _message_suffix ms = "".
Proof.
  intros H. unfold _message_suffix.
  rewrite <- (app_nil_r (rev ms)).
  by rewrite message_suffix_loop_skip by by apply Forall_rev.
Qed.

(** C8, as the code has it.  The text of the item is the title, " - ", the
    status shown, and the suffix: the status shown is the status itself when
    it is a non-empty string and "pending" when it is [None] or empty; the
    suffix is the last message that is not blank, trimmed of surrounding
    whitespace, in parentheses after a space, and nothing when every
    message is blank or there is none. *)
Theorem C8_display_text (it : item) (t : string) (status : option string)
    (ms : list string) :
  let text := item_text (_apply_stage_state it t status ms).1 in
  let shown := status_or_pending status in
  (∀ before m after,
     ms = before ++ m :: after →
     PyStr.strip m ≠ "" →
     Forall (fun x => PyStr.strip x = "") after →
     text = t +:+ " - " +:+ shown +:+ " (" +:+ PyStr.strip m +:+ ")") ∧
  (Forall (fun x => PyStr.strip x = "") ms → text = t +:+ " - " +:+ shown) ∧
  (∀ s, status = Some s → s ≠ "" → shown = s) ∧
  (status = None ∨ status = Some "" → shown = "pending").
Proof.
  intros text shown. subst text shown.
  unfold _apply_stage_state. simpl.
  repeat split.
  - intros before m after -> Hm Hafter.
    by rewrite message_suffix_last.
  - intros Hblank. by rewrite message_suffix_blank, string_app_empty_r.
  - intros s -> Hs. by apply status_or_pending_nonempty.
  - by intros [-> | ->].
Qed.

(** C8 as the spec words it fails in two places: an empty status is shown as
    "pending", and the message in parentheses is the trimmed one. *)
Lemma C8_display_text_counterexample :
  (let text := item_text (_apply_stage_state (Item "alpha" "" Unchecked)
                            "Alpha" (Some "") []).1 in
   text = "Alpha - pending" ∧ text ≠ "Alpha" +:+ " - " +:+ "") ∧
  (let text := item_text (_apply_stage_state (Item "alpha" "" Unchecked)
                            "Alpha" (Some "running") [" hi "]).1 in
   PyStr.strip " hi " ≠ "" ∧
   text = "Alpha - running (hi)" ∧
   text ≠ "Alpha" +:+ " - " +:+ "running" +:+ " (" +:+ " hi " +:+ ")").
Proof.
  repeat split; try reflexivity; discriminate.
Qed.

(** ** The checklist under [discover_loop] and [apply_loop] *)


Lemma discover_loop_items_mono (stages : list (string * Stage.t)) (w : widget)
    (id : string) (row : nat) :
  _items w !! id = Some row →
  _items (discover_loop stages w) !! id = Some row.
Proof.
  revert w. induction stages as [|[stage_id stage] rest IH]; intros w Hid; simpl.
  - done.
  - destruct (_items w !! stage_id) eqn:Hs.
    + by apply IH.
    + apply IH. simpl. rewrite lookup_insert_ne; [done|].
      intros ->. congruence.
Qed.

Lemma discover_loop_covers (stages : list (string * Stage.t)) (w : widget)
    (id : string) :
  id ∈ stages.*1 → is_Some (_items (discover_loop stages w) !! id).
Proof.
  revert w. induction stages as [|[stage_id stage] rest IH]; intros w; simpl.
  - by rewrite elem_of_nil.
  - rewrite elem_of_cons. intros [-> | Hin].
    + destruct (_items w !! stage_id) eqn:Hs.
      * eexists. by apply discover_loop_items_mono.
      * eexists. apply discover_loop_items_mono. simpl.
        by rewrite lookup_insert_eq.
    + destruct (_items w !! stage_id); by apply IH.
Qed.

Lemma discover_loop_frame (stages : list (string * Stage.t)) (w : widget) :
  let w' := discover_loop stages w in
  _completion_triggered w' = _completion_triggered w
  ∧ _repo_index_cache w' = _repo_index_cache w
  ∧ trace w' = trace w
  ∧ _timer_active w' = _timer_active w
  ∧ _status_label w' = _status_label w.
Proof.
  revert w. induction stages as [|[stage_id stage] rest IH]; intros w; simpl.
  - done.
  - destruct (_items w !! stage_id); [apply IH|].
    match goal with |- context [discover_loop rest ?w1] =>
      destruct (IH w1) as (-> & -> & -> & -> & ->) end.
    done.
Qed.

Lemma discover_loop_wf (stages : list (string * Stage.t)) (w : widget) :
  widget_wf w → widget_wf (discover_loop stages w).
Proof.
  revert w. induction stages as [|[stage_id stage] rest IH]; intros w Hwf; simpl.
  - done.
  - destruct (_items w !! stage_id) eqn:Hs; [by apply IH|].
    apply IH. destruct Hwf as [Hrows Hinj Htracked Hnodup].
    split; simpl.
    + intros id row. rewrite length_app. simpl.
      destruct (decide (stage_id = id)) as [-> | Hne].
      * rewrite lookup_insert_eq. intros [= <-]. lia.
      * rewrite lookup_insert_ne by done. intros H%Hrows. lia.
    + intros id1 id2 row.
      destruct (decide (stage_id = id1)) as [<- | Hne1];
        destruct (decide (stage_id = id2)) as [<- | Hne2]; [done|..].
      * rewrite lookup_insert_eq, lookup_insert_ne by done.
        intros [= <-] H%Hrows. lia.
      * rewrite lookup_insert_eq, lookup_insert_ne by done.
        intros H%Hrows [= <-]. lia.
      * rewrite !lookup_insert_ne by done. apply Hinj.
    + intros id. rewrite fmap_app, elem_of_app. simpl.
      rewrite list_elem_of_singleton.
      destruct (decide (stage_id = id)) as [-> | Hne].
      * rewrite lookup_insert_eq. by eexists.
      * rewrite lookup_insert_ne by done. intros [H | ->]; [by apply Htracked|done].
    + rewrite fmap_app. simpl. apply NoDup_app. split_and!.
      * done.
      * intros id Hin. rewrite list_elem_of_singleton. intros ->.
        apply Htracked in Hin as [? Hin]. congruence.
      * apply NoDup_singleton.
Qed.

Lemma apply_loop_cons_apply (stage_id title : string)
    (rest : list (string * string)) (items : gmap string nat)
    (stages : list (string * Stage.t)) (rows : list item) (b : bool)
    (row : nat) (it : item) :
  items !! stage_id = Some row →
  rows !! row = Some it →
  apply_loop ((stage_id, title) :: rest) items stages rows b
  = apply_loop rest items stages
      (<[row := stage_item title (assoc_get stage_id stages) it]> rows)
      (if in_done_statuses (PyStr.lower (stage_status_text stages stage_id))
       then b else false).
Proof. intros Hrow Hit. simpl. by rewrite Hrow, Hit. Qed.

Lemma apply_loop_cons_skip (stage_id title : string)
    (rest : list (string * string)) (items : gmap string nat)
    (stages : list (string * Stage.t)) (rows : list item) (b : bool) :
  ¬ (∃ row, items !! stage_id = Some row ∧ is_Some (rows !! row)) →
  apply_loop ((stage_id, title) :: rest) items stages rows b
  = apply_loop rest items stages rows b.
Proof.
  intros Hno. simpl.
  destruct (items !! stage_id) as [row|] eqn:Hrow; [|done].
  destruct (rows !! row) as [it|] eqn:Hit; [|done].
  destruct Hno. exists row. by rewrite Hit.
Qed.

Lemma tracked_row_dec (items : gmap string nat) (rows : list item)
    (stage_id : string) :
  (∃ row it, items !! stage_id = Some row ∧ rows !! row = Some it)
  ∨ ¬ (∃ row, items !! stage_id = Some row ∧ is_Some (rows !! row)).
Proof.
  destruct (items !! stage_id) as [row|] eqn:Hrow.
  - destruct (rows !! row) as [it|] eqn:Hit.
    + left. by exists row, it.
    + right. intros (row' & [= <-] & [? ?]). congruence.
  - right. by intros (row' & [=] & _).
Qed.

Lemma apply_loop_length (defs : list (string * string)) (items : gmap string nat)
    (stages : list (string * Stage.t)) (rows : list item) (b : bool) :
  length (apply_loop defs items stages rows b).1 = length rows.
Proof.
  revert rows b. induction defs as [|[stage_id title] rest IH]; intros rows b.
  - done.
  - destruct (tracked_row_dec items rows stage_id) as [(row & it & Hrow & Hit) | Hno].
    + rewrite (apply_loop_cons_apply _ _ _ _ _ _ _ _ _ Hrow Hit), IH.
      apply length_insert.
    + by rewrite (apply_loop_cons_skip stage_id title).
Qed.

(** The flag [apply_loop] returns is true exactly when it started true and
    every stage it applied has a done-status. *)
Lemma apply_loop_flag (defs : list (string * string)) (items : gmap string nat)
    (stages : list (string * Stage.t)) (rows : list item) (b : bool) :
  (apply_loop defs items stages rows b).2 = true ↔
  b = true ∧
  ∀ stage_id title, (stage_id, title) ∈ defs →
    (∃ row, items !! stage_id = Some row ∧ is_Some (rows !! row)) →
    is_done_status (stage_status_text stages stage_id).
Proof.
  revert rows b. induction defs as [|[stage_id title] rest IH]; intros rows b.
  - simpl. split; [intros ->; split; [done|] | by intros [-> _]].
    intros ?? H. by apply elem_of_nil in H.
  - assert (Hrest : ∀ rows' : list item, length rows' = length rows →
      ∀ id, (∃ row, items !! id = Some row ∧ is_Some (rows' !! row))
          ↔ (∃ row, items !! id = Some row ∧ is_Some (rows !! row))).
    { intros rows' Hlen id. split; intros (row & ? & ?); exists row;
        (split; [done|]); rewrite lookup_lt_is_Some in *; lia. }
    destruct (tracked_row_dec items rows stage_id) as [(row & it & Hrow & Hit) | Hno].
    + rewrite (apply_loop_cons_apply _ _ _ _ _ _ _ _ _ Hrow Hit), IH.
      set (rows' := <[row:=_]> rows).
      assert (Hlen : length rows' = length rows) by apply length_insert.
      destruct (in_done_statuses _) eqn:Hdone.
      * apply in_done_statuses_true in Hdone. split.
        -- intros [-> Hall]. split; [done|].
           intros id t [[= -> ->] | Hin]%elem_of_cons Htr; [done|].
           apply (Hall id t Hin). by apply (Hrest rows').
        -- intros [-> Hall]. split; [done|]. intros id t Hin Htr.
           apply (Hall id t); [by right|]. by apply (Hrest rows') in Htr.
      * apply in_done_statuses_false in Hdone. split; [by intros [? _]|].
        intros [_ Hall]. destruct Hdone. apply (Hall stage_id title); [by left|].
        exists row. by rewrite Hit.
    + rewrite (apply_loop_cons_skip stage_id title), IH by done.
      split; intros [-> Hall]; (split; [done|]); intros id t.
      * intros [[= -> ->] | Hin]%elem_of_cons Htr; [done|]. by apply (Hall id t).
      * intros Hin Htr. apply (Hall id t); [by right|done].
Qed.

Lemma apply_loop_other (defs : list (string * string)) (items : gmap string nat)
    (stages : list (string * Stage.t)) (rows : list item) (b : bool) (row : nat) :
  (∀ id t, (id, t) ∈ defs → items !! id ≠ Some row) →
  (apply_loop defs items stages rows b).1 !! row = rows !! row.
Proof.
  revert rows b. induction defs as [|[stage_id title] rest IH]; intros rows b Hother.
  - done.
  - assert (Hrest : ∀ id t, (id, t) ∈ rest → items !! id ≠ Some row).
    { intros id t Hin. apply (Hother id t). by right. }
    destruct (tracked_row_dec items rows stage_id) as [(row' & it & Hrow & Hit) | Hno].
    + rewrite (apply_loop_cons_apply _ _ _ _ _ _ _ _ _ Hrow Hit), IH by done.
      apply list_lookup_insert_ne. intros ->.
      by apply (Hother stage_id title); [left|].
    + by rewrite (apply_loop_cons_skip stage_id title), IH.
Qed.

Lemma apply_loop_lookup (defs : list (string * string)) (items : gmap string nat)
    (stages : list (string * Stage.t)) (rows : list item) (b : bool)
    (id title : string) (row : nat) (it : item) :
  NoDup defs.*1 →
  (∀ id1 id2 r, items !! id1 = Some r → items !! id2 = Some r → id1 = id2) →
  (id, title) ∈ defs →
  items !! id = Some row →
  rows !! row = Some it →
  (apply_loop defs items stages rows b).1 !! row
  = Some (stage_item title (assoc_get id stages) it).
Proof.
  intros Hnodup Hinj. revert rows b.
  induction defs as [|[stage_id t] rest IH]; intros rows b Hin Hrow Hit.
  - by apply elem_of_nil in Hin.
  - rewrite fmap_cons, NoDup_cons in Hnodup. simpl in Hnodup.
    destruct Hnodup as [Hfresh Hnodup].
    apply elem_of_cons in Hin as [[= -> ->] | Hin].
    + rewrite (apply_loop_cons_apply _ _ _ _ _ _ _ _ _ Hrow Hit).
      rewrite apply_loop_other.
      * apply list_lookup_insert_eq. by apply lookup_lt_Some in Hit.
      * intros id' t' Hin' Hrow'. apply Hfresh.
        rewrite (Hinj _ _ _ Hrow Hrow'). apply list_elem_of_fmap. by exists (id', t').
    + assert (stage_id ≠ id) as Hne.
      { intros ->. apply Hfresh. apply list_elem_of_fmap. by exists (id, title). }
      destruct (tracked_row_dec items rows stage_id)
        as [(row' & it' & Hrow' & Hit') | Hno].
      * rewrite (apply_loop_cons_apply _ _ _ _ _ _ _ _ _ Hrow' Hit').
        apply IH; [done..|].
        rewrite list_lookup_insert_ne; [done|].
        intros ->. apply Hne. by apply (Hinj _ _ _ Hrow' Hrow).
      * rewrite (apply_loop_cons_skip stage_id t) by done. by apply IH.
Qed.

(** ** [merge_stages] and [_update_from_snapshot] *)

Lemma merge_stages_fields (w : widget) (stages : list (string * Stage.t)) :
  let w1 := discover_loop stages w in
  let applied :=
    apply_loop (_stage_definitions w1) (_items w1) stages (_checklist w1) true in
  merge_stages w stages = (with_checklist applied.1 w1, applied.2).
Proof.
  unfold merge_stages. simpl.
  by destruct (apply_loop _ _ _ _ _).
Qed.

Lemma merge_stages_wf (w : widget) (stages : list (string * Stage.t)) :
  widget_wf w → widget_wf (merge_stages w stages).1.
Proof.
  intros Hwf. rewrite merge_stages_fields. simpl.
  destruct (discover_loop_wf stages w Hwf) as [Hrows Hinj Htracked Hnodup].
  split; simpl; try done.
  intros id row H. rewrite apply_loop_length. by apply (Hrows id).
Qed.

Lemma same_board_refl (w : widget) : same_board w w.
Proof. by repeat split. Qed.

Lemma same_board_trans (w1 w2 w3 : widget) :
  same_board w1 w2 → same_board w2 w3 → same_board w1 w3.
Proof.
  intros (? & ? & ? & ? & ?) (? & ? & ? & ? & ?). repeat split; congruence.
Qed.

Lemma update_detail_view_board (w : widget) (stage_id : option string) :
  same_board w (_update_detail_view w stage_id).
Proof.
  unfold _update_detail_view.
  destruct stage_id as [sid|]; [|by repeat split].
  destruct (_repo_index_cache w !! sid); by repeat split.
Qed.

Lemma update_detail_view_trace (w : widget) (stage_id : option string) :
  trace (_update_detail_view w stage_id) = trace w
  ∧ _repo_index_cache (_update_detail_view w stage_id) = _repo_index_cache w
  ∧ _status_label (_update_detail_view w stage_id) = _status_label w.
Proof.
  unfold _update_detail_view.
  destruct stage_id as [sid|]; [|done].
  by destruct (_repo_index_cache w !! sid).
Qed.

Section RefreshFacts.
Context {rt : PyRuntime}.

Lemma refresh_stage_repo_details_board (w : widget) (fs : filesystem)
    (stages : list (string * Stage.t)) :
  same_board w (_refresh_stage_repo_details w fs stages).1
  ∧ _status_label (_refresh_stage_repo_details w fs stages).1 = _status_label w.
Proof.
  unfold _refresh_stage_repo_details.
  destruct (refresh_loop _ _ _ _ _) as [[cache tr] [observed|e]];
    by repeat split.
Qed.

Lemma update_from_snapshot_board (w : widget) (fs : filesystem)
    (snapshot : Snapshot.t) :
  same_board (merge_stages w (snapshot_stages snapshot)).1
             (_update_from_snapshot w fs snapshot).1.
Proof.
  unfold _update_from_snapshot.
  destruct (merge_stages w (snapshot_stages snapshot)) as [w1 all_done]. simpl.
  pose proof (refresh_stage_repo_details_board w1 fs (snapshot_stages snapshot))
    as [Hboard _].
  destruct (_refresh_stage_repo_details w1 fs (snapshot_stages snapshot))
    as [w2 [[]|e]]; simpl in *; [|done].
  eapply same_board_trans; [done|].
  eapply same_board_trans; [apply update_detail_view_board|].
  destruct (snapshot_stages snapshot); [apply same_board_refl|].
  destruct (_completion_triggered _); [apply same_board_refl|].
  destruct all_done; by repeat split.
Qed.

Lemma merge_stages_triggered (w : widget) (stages : list (string * Stage.t)) :
  _completion_triggered (merge_stages w stages).1 = _completion_triggered w
  ∧ trace (merge_stages w stages).1 = trace w
  ∧ _repo_index_cache (merge_stages w stages).1 = _repo_index_cache w
  ∧ _timer_active (merge_stages w stages).1 = _timer_active w.
Proof.
  rewrite merge_stages_fields. simpl.
  destruct (discover_loop_frame stages w) as (-> & -> & -> & -> & _). done.
Qed.


End RefreshFacts.

(** ** Stages keyed by their ids *)

Lemma assoc_get_odict_set {V : Type} (key key' : string) (value : V)
    (d : list (string * V)) :
  assoc_get key' (odict_set key value d)
  = if String.eqb key' key then Some value else assoc_get key' d.
Proof.
  induction d as [|[k v] rest IH]; simpl; [done|].
  destruct (String.eqb key k) eqn:Hk; simpl.
  - apply String.eqb_eq in Hk as ->. by destruct (String.eqb key' k).
  - rewrite IH. destruct (String.eqb key' k) eqn:Hk'; [|done].
    apply String.eqb_eq in Hk' as ->. by rewrite String.eqb_sym, Hk.
Qed.

Lemma odict_set_keys {V : Type} (key : string) (value : V)
    (d : list (string * V)) :
  (odict_set key value d).*1 = if decide (key ∈ d.*1) then d.*1 else d.*1 ++ [key].
Proof.
  induction d as [|[k v] rest IH].
  - case_decide as H; [by apply elem_of_nil in H|done].
  - cbn [odict_set]. rewrite (fmap_cons fst (k, v) rest). cbn [fst].
    destruct (String.eqb key k) eqn:Hk.
    + apply String.eqb_eq in Hk as ->. by rewrite decide_True by by left.
    + apply String.eqb_neq in Hk. rewrite fmap_cons, IH. cbn [fst].
      destruct (decide (key ∈ rest.*1)) as [Hin|Hnot].
      * by rewrite decide_True by by right.
      * rewrite decide_False; [done|]. by intros [? | ?]%elem_of_cons.
Qed.

Lemma odict_set_fresh {V : Type} (key : string) (value : V)
    (d : list (string * V)) :
  key ∉ d.*1 → odict_set key value d = d ++ [(key, value)].
Proof.
  induction d as [|[k v] rest IH]; simpl; [done|].
  intros Hnot. destruct (String.eqb key k) eqn:Hk.
  - apply String.eqb_eq in Hk as ->. destruct Hnot. by left.
  - rewrite IH; [done|]. intros ?. apply Hnot. by right.
Qed.

Lemma collect_stages_snoc (raw : list (string * Stage.t)) (entry : string * Stage.t) :
  collect_stages (raw ++ [entry])
  = odict_set (rekey entry).1 (rekey entry).2 (collect_stages raw).
Proof. unfold collect_stages. rewrite foldl_app. by destruct entry. Qed.

Lemma collect_stages_nodup (raw : list (string * Stage.t)) :
  NoDup (collect_stages raw).*1.
Proof.
  induction raw as [|entry raw IH] using rev_ind; [constructor|].
  rewrite collect_stages_snoc, odict_set_keys.
  case_decide as Hin; [done|].
  apply NoDup_app. split_and!; [done| |apply NoDup_singleton].
  intros k Hk ->%list_elem_of_singleton. done.
Qed.

Lemma collect_stages_keys (raw : list (string * Stage.t)) (id : string) :
  id ∈ (collect_stages raw).*1 ↔ id ∈ (rekey <$> raw).*1.
Proof.
  induction raw as [|entry raw IH] using rev_ind; [done|].
  rewrite collect_stages_snoc, odict_set_keys, !fmap_app, elem_of_app. simpl.
  rewrite list_elem_of_singleton, <- IH.
  case_decide as Hin; [|rewrite elem_of_app, list_elem_of_singleton; tauto].
  split; [by left|]. by intros [? | ->].
Qed.


(** The ids the update files the stages of a snapshot under. *)
Lemma snapshot_stages_keys (snapshot : Snapshot.t) (id : string) :
  id ∈ (snapshot_stages snapshot).*1 ↔
  ∃ key stage, (key, stage) ∈ Snapshot.stages snapshot
               ∧ id = default key (Stage.stage_id stage).
Proof.
  unfold snapshot_stages. rewrite collect_stages_keys.
  rewrite <- list_fmap_compose, list_elem_of_fmap. split.
  - intros ([key stage] & -> & Hin). by exists key, stage.
  - intros (key & stage & Hin & ->). by exists (key, stage).
Qed.

(** ** The aggregate flag and the pending default *)


Section Aggregate.
Context {rt : PyRuntime}.




End Aggregate.

(** ** Reachable widgets are well formed *)

Lemma build_items_wf (defs : list (string * string)) (rows : list item)
    (items : gmap string nat) :
  (∀ id r, items !! id = Some r → r < length rows) →
  (∀ id1 id2 r, items !! id1 = Some r → items !! id2 = Some r → id1 = id2) →
  let res := build_items defs rows items in
  (∀ id r, res.2 !! id = Some r → r < length res.1)
  ∧ (∀ id1 id2 r, res.2 !! id1 = Some r → res.2 !! id2 = Some r → id1 = id2)
  ∧ (∀ id, id ∈ defs.*1 ∨ is_Some (items !! id) → is_Some (res.2 !! id)).
Proof.
  revert rows items.
  induction defs as [|[stage_id title] rest IH]; intros rows items Hrows Hinj; simpl.
  - split_and!; [done..|]. intros id [H | H]; [by apply elem_of_nil in H|done].
  - match goal with |- context [build_items rest ?r ?i] =>
      destruct (IH r i) as (Hrows' & Hinj' & Hsome') end.
    + intros id r. rewrite length_app. simpl.
      destruct (decide (stage_id = id)) as [<- | Hne].
      * rewrite lookup_insert_eq. intros [= <-]. lia.
      * rewrite lookup_insert_ne by done. intros H%Hrows. lia.
    + intros id1 id2 r.
      destruct (decide (stage_id = id1)) as [<- | Hne1];
        destruct (decide (stage_id = id2)) as [<- | Hne2]; [done|..].
      * rewrite lookup_insert_eq, lookup_insert_ne by done.
        intros [= <-] H%Hrows. lia.
      * rewrite lookup_insert_eq, lookup_insert_ne by done.
        intros H%Hrows [= <-]. lia.
      * rewrite !lookup_insert_ne by done. apply Hinj.
    + split_and!; [done..|]. intros id Hid. apply Hsome'.
      destruct (decide (stage_id = id)) as [<- | Hne].
      * right. rewrite lookup_insert_eq. by eexists.
      * rewrite lookup_insert_ne by done.
        destruct Hid as [[? | ?]%elem_of_cons | ?]; [done|by left|by right].
Qed.

Lemma init_fields (defs : list (string * string)) :
  _stage_definitions (init defs) = defs
  ∧ _items (init defs) = (build_items defs [] ∅).2
  ∧ _checklist (init defs) = (build_items defs [] ∅).1
  ∧ _completion_triggered (init defs) = false
  ∧ trace (init defs) = [].
Proof. unfold init. by destruct (build_items defs [] ∅). Qed.

Lemma init_wf (defs : list (string * string)) :
  NoDup defs.*1 → widget_wf (init defs).
Proof.
  intros Hnodup.
  destruct (init_fields defs) as (Hd & Hi & Hc & _).
  destruct (build_items_wf defs [] ∅) as (Hrows & Hinj & Hsome).
  { intros id r. by rewrite lookup_empty. }
  { intros id1 id2 r. by rewrite lookup_empty. }
  split; rewrite ?Hd, ?Hi, ?Hc; [done..| |done].
  intros id Hid. apply Hsome. by left.
Qed.

Lemma wf_transfer (w w' : widget) :
  _checklist w' = _checklist w →
  _items w' = _items w →
  _stage_definitions w' = _stage_definitions w →
  widget_wf w → widget_wf w'.
Proof.
  intros Hc Hi Hd [Hrows Hinj Htracked Hnodup].
  split; rewrite ?Hc, ?Hi, ?Hd; done.
Qed.

Lemma handle_completion_checklist (w : widget) :
  _checklist (_handle_completion w) = _checklist w
  ∧ _items (_handle_completion w) = _items w
  ∧ _stage_definitions (_handle_completion w) = _stage_definitions w.
Proof. unfold _handle_completion. by destruct (_completion_triggered w). Qed.

Section Reachable.
Context {rt : PyRuntime}.

(** What a poll does to the checklist: nothing without a snapshot, the
    merge with one, whether or not the poll completes. *)
Lemma refresh_snapshot_checklist (w : widget) (snapshot : option Snapshot.t)
    (fs : filesystem) (worker_done : bool) :
  let w' := (_refresh_snapshot w snapshot fs worker_done).1 in
  let m := match snapshot with
           | Some snap => (merge_stages w (snapshot_stages snap)).1
           | None => w
           end in
  _checklist w' = _checklist m
  ∧ _items w' = _items m
  ∧ _stage_definitions w' = _stage_definitions m.
Proof.
  unfold _refresh_snapshot. destruct snapshot as [snap|]; simpl.
  - destruct (update_from_snapshot_board w fs snap) as (Hc & Hi & Hd & _).
    destruct (_update_from_snapshot w fs snap) as [w1 [[]|e]]; simpl in *; [|done].
    destruct (worker_done && negb (_completion_triggered w1)); simpl; [|done].
    match goal with |- context [_handle_completion ?x] =>
      destruct (handle_completion_checklist x) as (-> & -> & ->) end.
    done.
  - by destruct (_completion_triggered w).
Qed.

Lemma step_checklist (w : widget) (o : op) :
  match o with
  | OpRefreshSnapshot (Some snap) _ _ =>
      let m := (merge_stages w (snapshot_stages snap)).1 in
      _checklist (step w o) = _checklist m
      ∧ _items (step w o) = _items m
      ∧ _stage_definitions (step w o) = _stage_definitions m
  | _ =>
      _checklist (step w o) = _checklist w
      ∧ _items (step w o) = _items w
      ∧ _stage_definitions (step w o) = _stage_definitions w
  end.
Proof.
  destruct o as [[snap|] fs wd | row | |]; simpl.
  - apply (refresh_snapshot_checklist w (Some snap) fs wd).
  - apply (refresh_snapshot_checklist w None fs wd).
  - unfold _handle_stage_selection.
    match goal with |- context [_update_detail_view ?x ?y] =>
      destruct (update_detail_view_board x y) as (-> & -> & -> & _) end.
    unfold select_row. destruct row as [r|]; [|done]. by case_decide.
  - apply handle_completion_checklist.
  - done.
Qed.

Lemma step_wf (w : widget) (o : op) : widget_wf w → widget_wf (step w o).
Proof.
  intros Hwf. pose proof (step_checklist w o) as H.
  destruct o as [[snap|] fs wd | row | |]; cbv beta iota zeta in H;
    destruct H as (Hc & Hi & Hd);
    try (by apply (wf_transfer w)).
  apply (wf_transfer (merge_stages w (snapshot_stages snap)).1); [done..|].
  by apply merge_stages_wf.
Qed.

Lemma run_wf (w : widget) (ops : list op) : widget_wf w → widget_wf (run w ops).
Proof.
  revert w. induction ops as [|o ops IH]; intros w Hwf; simpl; [done|].
  apply IH. by apply step_wf.
Qed.

End Reachable.




(** ** Stages are never removed *)

Section Superset.
Context {rt : PyRuntime}.

Lemma step_items_mono (w : widget) (o : op) (id : string) (row : nat) :
  _items w !! id = Some row → _items (step w o) !! id = Some row.
Proof.
  intros Hid. pose proof (step_checklist w o) as H.
  destruct o as [[snap|] fs wd | r | |]; cbv beta iota zeta in H;
    destruct H as (_ & -> & _); try done.
  rewrite merge_stages_fields. simpl. by apply discover_loop_items_mono.
Qed.

Lemma run_items_mono (w : widget) (ops : list op) (id : string) (row : nat) :
  _items w !! id = Some row → _items (run w ops) !! id = Some row.
Proof.
  revert w. induction ops as [|o ops IH]; intros w Hid; simpl; [done|].
  apply IH. by apply step_items_mono.
Qed.

(** C5.  Over any sequence of operations on the widget, an entry of
    [_items] stays where it is, and every stage of every snapshot a poll of
    the sequence has read has an entry at the end, under its stage id: its
    own [stage_id], or its key in the snapshot when it has none.  This
    holds also when the poll raises, later, in the repo details. *)
Theorem C5_items_superset (w : widget) (ops : list op) :
  (∀ id row, _items w !! id = Some row → _items (run w ops) !! id = Some row)
  ∧ (∀ snap fs worker_done key stage,
       OpRefreshSnapshot (Some snap) fs worker_done ∈ ops →
       (key, stage) ∈ Snapshot.stages snap →
       is_Some (_items (run w ops) !! default key (Stage.stage_id stage))).
Proof.
  split; [intros id row; apply run_items_mono|].
  revert w. induction ops as [|o ops IH]; intros w snap fs wd key stage Hin Hstage.
  - by apply elem_of_nil in Hin.
  - simpl. apply elem_of_cons in Hin as [<- | Hin]; [|by eapply IH].
    destruct (step_checklist w (OpRefreshSnapshot (Some snap) fs wd))
      as (_ & Hitems & _).
    destruct (discover_loop_covers (snapshot_stages snap) w
                (default key (Stage.stage_id stage))) as [row Hrow].
    { apply snapshot_stages_keys. by exists key, stage. }
    exists row. apply run_items_mono. rewrite Hitems.
    by rewrite merge_stages_fields.
Qed.

End Superset.

(** ** Completion *)

Lemma occurrences_app (ev : event) (tr1 tr2 : list event) :
  occurrences ev (tr1 ++ tr2) = occurrences ev tr1 + occurrences ev tr2.
Proof. unfold occurrences. by rewrite filter_app, length_app. Qed.

Lemma occurrences_file_ops (ev : event) (ops : list event) :
  completion_event ev →
  (∀ e, e ∈ ops → ∃ p, e = EvStat p ∨ e = EvRead p) →
  occurrences ev ops = 0.
Proof.
  intros Hev Hops. unfold occurrences.
  induction ops as [|e ops IH]; [done|].
  rewrite filter_cons. destruct (decide (e = ev)) as [-> | _].
  - destruct (Hops ev) as [p [-> | ->]]; [by left|..]; by destruct Hev.
  - apply IH. intros e' He'. apply Hops. by right.
Qed.

Lemma handle_completion_trace (w : widget) :
  if _completion_triggered w then _handle_completion w = w
  else _completion_triggered (_handle_completion w) = true
       ∧ _timer_active (_handle_completion w) = false
       ∧ trace (_handle_completion w) = trace w ++ [EvTimerStop; EvBoardCompleted].
Proof.
  unfold _handle_completion. destruct (_completion_triggered w) eqn:Ht; [done|].
  simpl. by rewrite <- app_assoc.
Qed.

Lemma occurrences_completion (ev : event) (tr : list event) :
  completion_event ev →
  occurrences ev (tr ++ [EvTimerStop; EvBoardCompleted]) = occurrences ev tr + 1.
Proof.
  intros [-> | ->]; by rewrite occurrences_app.
Qed.

Section Completion.
Context {rt : PyRuntime}.

Lemma load_repo_index_payload_ops (cache : gmap string CacheEntry.t)
    (fs : filesystem) (stage_id : string) (metadata : list (string * json)) (e : event) :
  e ∈ (_load_repo_index_payload cache fs stage_id metadata).1 →
  ∃ p, e = EvStat p ∨ e = EvRead p.
Proof.
  unfold _load_repo_index_payload.
  destruct (negb _); simpl; [by rewrite elem_of_nil|].
  destruct (_safe_stat fs _) as [mtime|]; simpl.
  - repeat case_match; simpl; rewrite ?elem_of_cons, elem_of_nil;
      intros Hin; destruct_or!; try done; subst; eauto.
  - rewrite list_elem_of_singleton. intros ->. eauto.
Qed.

Lemma refresh_loop_trace (fs : filesystem) (stages : list (string * Stage.t))
    (cache : gmap string CacheEntry.t) (observed : gset string)
    (tr : list event) (ev : event) :
  completion_event ev →
  occurrences ev (refresh_loop fs stages cache observed tr).1.2 = occurrences ev tr.
Proof.
  intros Hev. revert cache observed tr.
  induction stages as [|[stage_id stage] rest IH]; intros cache observed tr; simpl.
  - done.
  - pose proof (load_repo_index_payload_ops cache fs stage_id
                  (default [] (Stage.metadata stage))) as Hops.
    destruct (_load_repo_index_payload cache fs stage_id _) as [ops res].
    simpl in Hops.
    assert (occurrences ev (tr ++ ops) = occurrences ev tr) as Hocc.
    { rewrite occurrences_app, (occurrences_file_ops ev ops); [lia|done..]. }
    destruct res as [[entry|]|e]; simpl; by rewrite ?IH.
Qed.

Lemma update_from_snapshot_trace (w : widget) (fs : filesystem)
    (snapshot : Snapshot.t) (ev : event) :
  completion_event ev →
  occurrences ev (trace (_update_from_snapshot w fs snapshot).1)
  = occurrences ev (trace w).
Proof.
  intros Hev. unfold _update_from_snapshot.
  pose proof (merge_stages_triggered w (snapshot_stages snapshot)) as (_ & Htr & _).
  destruct (merge_stages w (snapshot_stages snapshot)) as [w1 all_done].
  simpl in Htr. rewrite <- Htr.
  unfold _refresh_stage_repo_details.
  pose proof (refresh_loop_trace fs (snapshot_stages snapshot)
                (_repo_index_cache w1) ∅ (trace w1) ev Hev) as Hloop.
  destruct (refresh_loop _ _ _ _ _) as [[cache tr] [observed|e]]; simpl in *; [|done].
  match goal with |- context [_update_detail_view ?x ?y] =>
    pose proof (update_detail_view_trace x y) as (Hv & _);
    pose proof (update_detail_view_board x y) as (_ & _ & _ & Hb & _) end.
  destruct (snapshot_stages snapshot); simpl; [by rewrite Hv|].
  destruct (_completion_triggered (_update_detail_view _ _)); simpl;
    [by rewrite Hv|].
  destruct all_done; simpl; by rewrite Hv.
Qed.

(** What a poll does to the completion state: nothing, or, from a widget
    not yet completed, the one completion. *)
Lemma refresh_snapshot_completion (w : widget) (snapshot : option Snapshot.t)
    (fs : filesystem) (worker_done : bool) :
  let polled := _refresh_snapshot w snapshot fs worker_done in
  ((_completion_triggered polled.1 = _completion_triggered w
    ∧ ∀ ev, completion_event ev →
        occurrences ev (trace polled.1) = occurrences ev (trace w))
   ∨ (_completion_triggered w = false
      ∧ _completion_triggered polled.1 = true
      ∧ ∀ ev, completion_event ev →
          occurrences ev (trace polled.1) = occurrences ev (trace w) + 1))
  ∧ (∀ snap, snapshot = Some snap → polled.2 = Returned tt →
     worker_done = true → _completion_triggered w = false →
     _completion_triggered polled.1 = true
     ∧ ∀ ev, completion_event ev →
         occurrences ev (trace polled.1) = occurrences ev (trace w) + 1).
Proof.
  unfold _refresh_snapshot. destruct snapshot as [snap|]; simpl.
  - pose proof (update_from_snapshot_board w fs snap) as (_ & _ & _ & Ht & _).
    pose proof (merge_stages_triggered w (snapshot_stages snap)) as (Ht' & _).
    rewrite Ht' in Ht.
    pose proof (update_from_snapshot_trace w fs snap) as Htr.
    destruct (_update_from_snapshot w fs snap) as [w1 [[]|e]]; simpl in *.
    + destruct worker_done; simpl.
      * destruct (_completion_triggered w1) eqn:Ht1; simpl.
        -- split; [left; split; [congruence|done]|]. intros ? _ _ _ ?. congruence.
        -- match goal with |- context [_handle_completion ?x] =>
             pose proof (handle_completion_trace x) as H end.
           simpl in H. rewrite Ht1 in H. destruct H as (Hc & _ & Htrace).
           assert (∀ ev, completion_event ev →
                     occurrences ev (trace (_handle_completion
                       (with_status_label
                          "Tooling finished. Command center unlocking..." w1)))
                     = occurrences ev (trace w) + 1) as Hocc.
           { intros ev Hev. rewrite Htrace, occurrences_completion by done.
             by rewrite Htr. }
           split; [right; split_and!; [congruence|done..]|done].
      * split; [left; by split|]. by intros.
    + split; [left; by split|]. by intros.
  - split; [|by intros ? [=]]. left. destruct (_completion_triggered w) eqn:E; simpl; by split.
Qed.

(** Over a run, completions plus the one still possible never grow. *)
Lemma step_completion_budget (w : widget) (o : op) (ev : event) :
  ev = EvBoardCompleted ∨ (ev = EvTimerStop ∧ o ≠ OpClose) →
  occurrences ev (trace (step w o))
    + (if _completion_triggered (step w o) then 0 else 1)
  ≤ occurrences ev (trace w) + (if _completion_triggered w then 0 else 1).
Proof.
  intros Hev.
  assert (completion_event ev) as Hce
    by (destruct Hev as [-> | [-> _]]; [by right|by left]).
  destruct o as [snapshot fs wd | row | |]; simpl.
  - destruct (refresh_snapshot_completion w snapshot fs wd)
      as [[[-> Hocc] | (-> & -> & Hocc)] _]; rewrite Hocc by done; lia.
  - unfold _handle_stage_selection.
    match goal with |- context [_update_detail_view ?x ?y] =>
      pose proof (update_detail_view_trace x y) as (-> & _);
      pose proof (update_detail_view_board x y) as (_ & _ & _ & -> & _) end.
    simpl. assert (trace (select_row row w) = trace w
                   ∧ _completion_triggered (select_row row w)
                     = _completion_triggered w) as [-> ->]; [|lia].
    unfold select_row. destruct row as [r|]; [|done]. by case_decide.
  - pose proof (handle_completion_trace w) as H.
    destruct (_completion_triggered w) eqn:Ht.
    + rewrite H, Ht. lia.
    + destruct H as (-> & _ & ->). rewrite occurrences_completion by done. lia.
  - destruct Hev as [-> | [_ ?]]; [|done].
    unfold closeEvent, timer_stop, emit. simpl. rewrite occurrences_app.
    replace (occurrences EvBoardCompleted [EvTimerStop]) with 0 by reflexivity.
    lia.
Qed.

Lemma run_completion_budget (w : widget) (ops : list op) (ev : event) :
  ev = EvBoardCompleted ∨ (ev = EvTimerStop ∧ OpClose ∉ ops) →
  occurrences ev (trace (run w ops))
    + (if _completion_triggered (run w ops) then 0 else 1)
  ≤ occurrences ev (trace w) + (if _completion_triggered w then 0 else 1).
Proof.
  revert w. induction ops as [|o ops IH]; intros w Hev; simpl; [lia|].
  etrans; [apply IH|apply step_completion_budget].
  - destruct Hev as [-> | [-> Hno]]; [by left|right]. split; [done|].
    intros Hin. apply Hno. by right.
  - destruct Hev as [-> | [-> Hno]]; [by left|right]. split; [done|].
    intros ->. apply Hno. by left.
Qed.

End Completion.

Section CompletionClaim.
Context {rt : PyRuntime}.

(** C7.  The completion handler is idempotent: called on a widget that has
    completed it changes nothing; called twice on one that has not, it
    stops the timer once and emits the completion signal once.  Two polls
    that both find the worker's event set give one completion signal and
    one timer stop; and over any operations the widget never emits more
    than one completion signal, nor, the window not being closed, stops
    the timer more than once. *)
Theorem C7_completion_idempotent (w : widget) :
  _handle_completion (_handle_completion w) = _handle_completion w
  ∧ (_completion_triggered w = true → _handle_completion w = w)
  ∧ (_completion_triggered w = false →
     trace (_handle_completion (_handle_completion w))
     = trace w ++ [EvTimerStop; EvBoardCompleted]
     ∧ _timer_active (_handle_completion (_handle_completion w)) = false
     ∧ _completion_triggered (_handle_completion (_handle_completion w)) = true)
  ∧ (∀ snap1 fs1 snap2 fs2,
       _completion_triggered w = false →
       let first := _refresh_snapshot w (Some snap1) fs1 true in
       let second := _refresh_snapshot first.1 (Some snap2) fs2 true in
       first.2 = Returned tt →
       occurrences EvBoardCompleted (trace second.1)
       = occurrences EvBoardCompleted (trace w) + 1
       ∧ occurrences EvTimerStop (trace second.1)
         = occurrences EvTimerStop (trace w) + 1)
  ∧ (∀ ops,
       occurrences EvBoardCompleted (trace (run w ops))
       ≤ occurrences EvBoardCompleted (trace w)
         + (if _completion_triggered w then 0 else 1))
  ∧ (∀ ops, OpClose ∉ ops →
       occurrences EvTimerStop (trace (run w ops))
       ≤ occurrences EvTimerStop (trace w)
         + (if _completion_triggered w then 0 else 1)).
Proof.
  pose proof (handle_completion_trace w) as Hw.
  pose proof (handle_completion_trace (_handle_completion w)) as Hww.
  split_and!.
  - destruct (_completion_triggered w); [by rewrite !Hw|].
    destruct Hw as (Ht & _). by rewrite Ht in Hww.
  - intros Ht. by rewrite Ht in Hw.
  - intros Ht. rewrite Ht in Hw. destruct Hw as (Ht' & Htimer & Htrace).
    rewrite Ht' in Hww. by rewrite Hww.
  - intros snap1 fs1 snap2 fs2 Ht first second Hret.
    destruct (refresh_snapshot_completion w (Some snap1) fs1 true)
      as [_ Hfirst].
    destruct (Hfirst snap1) as [Ht1 Hocc1]; [done..|].
    destruct (refresh_snapshot_completion first.1 (Some snap2) fs2 true)
      as [[[_ Hocc2] | (Hfalse & _)] _].
    + subst first second. split.
      * rewrite Hocc2 by (by right). by rewrite Hocc1 by (by right).
      * rewrite Hocc2 by (by left). by rewrite Hocc1 by (by left).
    + subst first. congruence.
  - intros ops.
    pose proof (run_completion_budget w ops EvBoardCompleted) as H.
    etrans; [|apply H; by left]. lia.
  - intros ops Hno.
    pose proof (run_completion_budget w ops EvTimerStop) as H.
    etrans; [|apply H; by right]. lia.
Qed.

End CompletionClaim.

(** ** The repo index cache *)

Lemma lookup_foldl_delete (ks : list string) (cache : gmap string CacheEntry.t)
    (id : string) :
  foldl (fun c k => delete k c) cache ks !! id
  = if decide (id ∈ ks) then None else cache !! id.
Proof.
  revert cache. induction ks as [|k ks IH]; intros cache; cbn [foldl].
  - destruct (decide (id ∈ [])) as [H|_]; [by apply elem_of_nil in H|done].
  - rewrite IH.
    destruct (decide (id ∈ ks)) as [H1|H1];
      destruct (decide (id ∈ k :: ks)) as [H2|H2]; try done.
    + destruct H2. by right.
    + apply elem_of_cons in H2 as [-> | ?]; [|done]. apply lookup_delete_eq.
    + apply lookup_delete_ne. intros ->. apply H2. by left.
Qed.

Lemma prune_stale_repo_cache_lookup (cache : gmap string CacheEntry.t)
    (observed_ids : gset string) (id : string) :
  _prune_stale_repo_cache cache observed_ids !! id
  = if decide (id ∈ observed_ids) then cache !! id else None.
Proof.
  unfold _prune_stale_repo_cache. rewrite lookup_foldl_delete.
  case_decide as Hstale; case_decide as Hobs; try done.
  - apply list_elem_of_filter in Hstale as [? _]. done.
  - destruct (cache !! id) as [entry|] eqn:Hid; [|done].
    destruct Hstale. apply list_elem_of_filter. split; [done|].
    apply list_elem_of_fmap. exists (id, entry). split; [done|].
    by apply elem_of_map_to_list.
Qed.

Section Cache.
Context {rt : PyRuntime}.

(** Loading looks at the cache only under the stage's own id. *)
Lemma load_repo_index_payload_cache (cache cache' : gmap string CacheEntry.t)
    (fs : filesystem) (stage_id : string) (metadata : list (string * json)) :
  cache !! stage_id = cache' !! stage_id →
  _load_repo_index_payload cache fs stage_id metadata
  = _load_repo_index_payload cache' fs stage_id metadata.
Proof. intros H. unfold _load_repo_index_payload. by rewrite H. Qed.

Lemma refresh_loop_returned (fs : filesystem) (stages : list (string * Stage.t))
    (cache cache' : gmap string CacheEntry.t) (observed observed' : gset string)
    (tr tr' : list event) :
  refresh_loop fs stages cache observed tr = (cache', tr', Returned observed') →
  observed' = observed ∪ list_to_set stages.*1
  ∧ (∀ id, id ∉ stages.*1 → cache' !! id = cache !! id)
  ∧ (NoDup stages.*1 → ∀ id stage, (id, stage) ∈ stages →
       cache' !! id
       = cached_after (_load_repo_index_payload cache fs id
                         (default [] (Stage.metadata stage))).2).
Proof.
  revert cache observed tr.
  induction stages as [|[stage_id stage] rest IH]; intros cache observed tr; simpl.
  - intros [= <- _ <-]. split_and!; [set_solver|done|].
    intros _ ?? H. by apply elem_of_nil in H.
  - destruct (_load_repo_index_payload cache fs stage_id _) as [ops res] eqn:Hload.
    destruct res as [loaded|e]; [|done].
    set (cache1 := match loaded with
                   | Some entry => <[stage_id := entry]> cache
                   | None => delete stage_id cache
                   end).
    assert (Hother : ∀ id, id ≠ stage_id → cache1 !! id = cache !! id).
    { intros id Hne. subst cache1. destruct loaded.
      - by rewrite lookup_insert_ne.
      - by rewrite lookup_delete_ne. }
    assert (Hself : cache1 !! stage_id = cached_after (Returned loaded)).
    { subst cache1. destruct loaded; simpl.
      - by rewrite lookup_insert_eq.
      - by rewrite lookup_delete_eq. }
    intros Hloop.
    assert (refresh_loop fs rest cache1 (observed ∪ {[stage_id]}) (tr ++ ops)
            = (cache', tr', Returned observed')) as Hrest.
    { subst cache1. by destruct loaded. }
    destruct (IH _ _ _ Hrest) as (Hobs & Hframe & Hlookup).
    split_and!.
    + set_solver.
    + intros id Hid. rewrite Hframe by set_solver. apply Hother. set_solver.
    + intros Hnodup id stage0 Hin.
      apply NoDup_cons in Hnodup as [Hfresh Hnodup].
      apply elem_of_cons in Hin as [[= -> ->] | Hin].
      * rewrite Hframe by done. by rewrite Hself, Hload.
      * assert (id ≠ stage_id) as Hne.
        { intros ->. apply Hfresh. apply list_elem_of_fmap. by exists (stage_id, stage0). }
        rewrite (Hlookup Hnodup id stage0 Hin).
        f_equal. f_equal. apply load_repo_index_payload_cache. by apply Hother.
Qed.

Lemma refresh_loop_app (fs : filesystem) (l1 l2 : list (string * Stage.t))
    (cache : gmap string CacheEntry.t) (observed : gset string) (tr : list event) :
  refresh_loop fs (l1 ++ l2) cache observed tr
  = match refresh_loop fs l1 cache observed tr with
    | (cache1, tr1, Returned observed1) => refresh_loop fs l2 cache1 observed1 tr1
    | stopped => stopped
    end.
Proof.
  revert cache observed tr.
  induction l1 as [|[stage_id stage] rest IH]; intros cache observed tr; simpl; [done|].
  destruct (_load_repo_index_payload cache fs stage_id _) as [ops [[entry|]|e]];
    [apply IH..|done].
Qed.

(** Whether it returns or raises, the loop leaves alone what is cached
    under the ids of other stages. *)
Lemma refresh_loop_frame (fs : filesystem) (stages : list (string * Stage.t))
    (cache : gmap string CacheEntry.t) (observed : gset string) (tr : list event)
    (id : string) :
  id ∉ stages.*1 →
  (refresh_loop fs stages cache observed tr).1.1 !! id = cache !! id.
Proof.
  revert cache observed tr.
  induction stages as [|[stage_id stage] rest IH]; intros cache observed tr Hid;
    simpl; [done|].
  rewrite fmap_cons, not_elem_of_cons in Hid. destruct Hid as [Hne Hid]. simpl in Hne.
  destruct (_load_repo_index_payload cache fs stage_id _) as [ops [[entry|]|e]];
    simpl; [rewrite IH by done..|done].
  - by rewrite lookup_insert_ne.
  - by rewrite lookup_delete_ne.
Qed.

(** A refresh that raises has pruned nothing. *)
Lemma refresh_stage_repo_details_raised (w w' : widget) (fs : filesystem)
    (stages : list (string * Stage.t)) (e : exn) (id : string) :
  _refresh_stage_repo_details w fs stages = (w', Raised e) →
  id ∉ stages.*1 →
  _repo_index_cache w' !! id = _repo_index_cache w !! id.
Proof.
  unfold _refresh_stage_repo_details. intros Hret Hid.
  pose proof (refresh_loop_frame fs stages (_repo_index_cache w) ∅ (trace w) id Hid)
    as Hframe.
  destruct (refresh_loop _ _ _ _ _) as [[cache tr] [observed|e']]; [done|].
  by injection Hret as <- _.
Qed.

(** What a refresh leaves under the id of a stage it reaches: when loading
    the stage raises, the refresh raises and the entry is as it was; when
    loading returns, the entry is what it returned, however the refresh
    ends. *)
Lemma refresh_stage_repo_details_at (w : widget) (fs : filesystem)
    (before after : list (string * Stage.t)) (stage_id : string) (stage : Stage.t) :
  let stages := before ++ (stage_id, stage) :: after in
  let refreshed := _refresh_stage_repo_details w fs stages in
  NoDup stages.*1 →
  (_refresh_stage_repo_details w fs before).2 = Returned tt →
  match (_load_repo_index_payload (_repo_index_cache w) fs stage_id
           (default [] (Stage.metadata stage))).2 with
  | Raised e =>
      refreshed.2 = Raised e
      ∧ _repo_index_cache refreshed.1 !! stage_id = _repo_index_cache w !! stage_id
  | Returned loaded => _repo_index_cache refreshed.1 !! stage_id = loaded
  end.
Proof.
  intros stages refreshed Hnodup Hbefore. subst refreshed stages.
  rewrite fmap_app, fmap_cons in Hnodup. simpl in Hnodup.
  apply NoDup_app in Hnodup as (_ & Hfresh & Hnodup).
  apply NoDup_cons in Hnodup as [Hafter _].
  assert (Hbefore_id : stage_id ∉ before.*1).
  { intros Hin. apply (Hfresh stage_id Hin). by left. }
  unfold _refresh_stage_repo_details in *.
  rewrite refresh_loop_app.
  pose proof (refresh_loop_frame fs before (_repo_index_cache w) ∅ (trace w)
                stage_id Hbefore_id) as Hframe.
  destruct (refresh_loop fs before _ _ _) as [[cache1 tr1] [observed1|e1]];
    [|done]. simpl in Hframe. clear Hbefore.
  cbn [refresh_loop].
  rewrite (load_repo_index_payload_cache (_repo_index_cache w) cache1) by done.
  destruct (_load_repo_index_payload cache1 fs stage_id _) as [ops [loaded|e]];
    simpl; [|by rewrite Hframe].
  set (cache2 := match loaded with
                 | Some entry => <[stage_id := entry]> cache1
                 | None => delete stage_id cache1
                 end).
  assert (Hself : cache2 !! stage_id = loaded).
  { subst cache2. destruct loaded.
    - by rewrite lookup_insert_eq.
    - by rewrite lookup_delete_eq. }
  assert (refresh_loop fs after cache2 (observed1 ∪ {[stage_id]}) (tr1 ++ ops)
          = match loaded with
            | Some entry =>
                refresh_loop fs after (<[stage_id := entry]> cache1)
                  (observed1 ∪ {[stage_id]}) (tr1 ++ ops)
            | None =>
                refresh_loop fs after (delete stage_id cache1)
                  (observed1 ∪ {[stage_id]}) (tr1 ++ ops)
            end) as Heq by (subst cache2; by destruct loaded).
  assert (_repo_index_cache
            (let '(cache, tr, res) :=
               refresh_loop fs after cache2 (observed1 ∪ {[stage_id]}) (tr1 ++ ops) in
             match res with
             | Returned observed_ids =>
                 (with_repo_index_cache (_prune_stale_repo_cache cache observed_ids)
                    (with_trace tr (with_repo_index_cache cache w)), Returned tt)
             | Raised e => (with_trace tr (with_repo_index_cache cache w), Raised e)
             end).1 !! stage_id = loaded) as Hgoal.
  { pose proof (refresh_loop_frame fs after cache2 (observed1 ∪ {[stage_id]})
                  (tr1 ++ ops) stage_id Hafter) as Hframe2.
    destruct (refresh_loop fs after cache2 _ _) as [[cache3 tr3] [observed3|e3]] eqn:Hloop;
      simpl in *; [|by rewrite Hframe2].
    rewrite prune_stale_repo_cache_lookup.
    destruct (refresh_loop_returned _ _ _ _ _ _ _ _ Hloop) as (-> & _).
    rewrite decide_True by set_solver. by rewrite Hframe2. }
  rewrite Heq in Hgoal. by destruct loaded.
Qed.

(** The cache a completed refresh leaves: under the id of a stage, what
    loading it returned; nothing under any other id. *)
Lemma refresh_stage_repo_details_lookup (w w' : widget) (fs : filesystem)
    (stages : list (string * Stage.t)) :
  _refresh_stage_repo_details w fs stages = (w', Returned tt) →
  (∀ id, id ∉ stages.*1 → _repo_index_cache w' !! id = None)
  ∧ (NoDup stages.*1 → ∀ id stage, (id, stage) ∈ stages →
       _repo_index_cache w' !! id
       = cached_after (_load_repo_index_payload (_repo_index_cache w) fs id
                         (default [] (Stage.metadata stage))).2).
Proof.
  unfold _refresh_stage_repo_details.
  destruct (refresh_loop _ _ _ _ _) as [[cache tr] [observed|e]] eqn:Hloop; [|done].
  intros [= <-]. simpl.
  destruct (refresh_loop_returned _ _ _ _ _ _ _ _ Hloop) as (-> & _ & Hlookup).
  split.
  - intros id Hid. rewrite prune_stale_repo_cache_lookup.
    case_decide as Hobs; [|done]. set_solver.
  - intros Hnodup id stage Hin. rewrite prune_stale_repo_cache_lookup.
    rewrite decide_True; [by apply Hlookup|].
    apply elem_of_union_r, elem_of_list_to_set, list_elem_of_fmap.
    by exists (id, stage).
Qed.

Lemma load_repo_index_payload_hit (cache : gmap string CacheEntry.t)
    (fs : filesystem) (stage_id : string) (metadata : list (string * json))
    (cached : CacheEntry.t) (f : file) :
  let index_path_obj := py_get "repo_progress_index_path" metadata in
  json_truthy index_path_obj = true →
  fs (py_str index_path_obj) = Ok f →
  cache !! stage_id = Some cached →
  CacheEntry.mtime cached = st_mtime f →
  _load_repo_index_payload cache fs stage_id metadata
  = ([EvStat (py_str index_path_obj)], Returned (Some cached)).
Proof.
  intros index_path_obj Htruthy Hf Hcached Hmtime.
  unfold _load_repo_index_payload, _safe_stat.
  fold index_path_obj. rewrite Htruthy. simpl.
  rewrite Hf. simpl. by rewrite Hcached, Hmtime, Z.eqb_refl.
Qed.

Lemma load_repo_index_payload_miss (cache : gmap string CacheEntry.t)
    (fs : filesystem) (stage_id : string) (metadata : list (string * json))
    (f : file) :
  let index_path_obj := py_get "repo_progress_index_path" metadata in
  json_truthy index_path_obj = true →
  fs (py_str index_path_obj) = Ok f →
  (∀ cached, cache !! stage_id = Some cached →
     CacheEntry.mtime cached ≠ st_mtime f) →
  _load_repo_index_payload cache fs stage_id metadata
  = ([EvStat (py_str index_path_obj); EvRead (py_str index_path_obj)],
     reloaded (py_str index_path_obj) f).
Proof.
  intros index_path_obj Htruthy Hf Hmiss.
  unfold _load_repo_index_payload, _safe_stat, _read_json_payload, reloaded.
  fold index_path_obj. rewrite Htruthy. simpl. rewrite Hf. simpl.
  assert (match cache !! stage_id with
          | Some cached =>
              if Z.eqb (CacheEntry.mtime cached) (st_mtime f) then Some cached
              else None
          | None => None
          end = None) as ->.
  { destruct (cache !! stage_id) as [cached|] eqn:Hcached; [|done].
    specialize (Hmiss cached eq_refl). apply Z.eqb_neq in Hmiss.
    by rewrite Hmiss. }
  destruct (decoded f) as [[| | | | | |payload]| |e]; try done.
  by destruct (_normalize_repo_entries _ _).
Qed.

(** A stat the code does not catch goes through the load. *)
Lemma load_repo_index_payload_stat_raises (cache : gmap string CacheEntry.t)
    (fs : filesystem) (stage_id : string) (metadata : list (string * json))
    (e : exn) :
  let index_path_obj := py_get "repo_progress_index_path" metadata in
  json_truthy index_path_obj = true →
  fs (py_str index_path_obj) = Uncaught e →
  _load_repo_index_payload cache fs stage_id metadata
  = ([EvStat (py_str index_path_obj)], Raised e).
Proof.
  intros index_path_obj Htruthy Hf.
  unfold _load_repo_index_payload, _safe_stat.
  fold index_path_obj. rewrite Htruthy. simpl. by rewrite Hf.
Qed.

End Cache.

Section CacheClaims.
Context {rt : PyRuntime}.

(** C4.  For a stage with a cached entry whose index file can be
    stat-ed: when the file's modification time equals the cached one, the
    load returns the cached entry and does nothing but the stat; when it
    differs, the load stats and reads the file and gives what a load with
    nothing cached gives, normalized from what the file decodes to. *)
Theorem C4_cache_hit_by_mtime (cache : gmap string CacheEntry.t)
    (fs : filesystem) (stage_id : string) (metadata : list (string * json))
    (cached : CacheEntry.t) (f : file) :
  let index_path_obj := py_get "repo_progress_index_path" metadata in
  let index_path := py_str index_path_obj in
  json_truthy index_path_obj = true →
  fs index_path = Ok f →
  cache !! stage_id = Some cached →
  let loaded := _load_repo_index_payload cache fs stage_id metadata in
  (CacheEntry.mtime cached = st_mtime f →
   loaded = ([EvStat index_path], Returned (Some cached)))
  ∧ (CacheEntry.mtime cached ≠ st_mtime f →
     loaded.1 = [EvStat index_path; EvRead index_path]
     ∧ loaded = _load_repo_index_payload (delete stage_id cache) fs stage_id metadata
     ∧ loaded.2
       = match decoded f with
         | Uncaught e => Raised e
         | Caught | Ok JNull => Returned None
         | Ok (JObj payload) =>
             match _normalize_repo_entries (py_get "entries" payload)
                     (str_or (py_get "entries_dir" payload)
                             (path_parent index_path)) with
             | Raised e => Raised e
             | Returned entries =>
                 Returned (Some (CacheEntry.Make index_path (st_mtime f) entries))
             end
         | Ok _ => Raised AttributeError
         end).
Proof.
  intros index_path_obj index_path Htruthy Hf Hcached loaded. subst loaded.
  split.
  - intros Hmtime.
    by apply (load_repo_index_payload_hit cache fs stage_id metadata cached f).
  - intros Hne.
    rewrite (load_repo_index_payload_miss cache fs stage_id metadata f); [|done..|].
    + rewrite (load_repo_index_payload_miss (delete stage_id cache) fs stage_id
                 metadata f); [done..|].
      intros c. by rewrite lookup_delete_eq.
    + intros c. rewrite Hcached. by intros [= <-].
Qed.


(** C3, as the code has it.  The stage's index file can be stat-ed, and
    the refresh reaches the stage.  With a cached entry of the file's
    modification time the file is not read: the entry is returned and
    kept.  Otherwise the file is read.  When reading or decoding fails
    with an exception [_read_json_payload] catches, the load returns no
    data, leaving the cache as it is, and the refresh removes the stage's
    entry from the cache, however it ends.  When it fails with another
    exception, the load raises it, the refresh stops there, and what was
    cached for the stage is still cached. *)
Theorem C3_unreadable_index_evicted (w : widget) (fs : filesystem)
    (before after : list (string * Stage.t)) (stage_id : string) (stage : Stage.t)
    (f : file) :
  let stages := before ++ (stage_id, stage) :: after in
  let metadata := default [] (Stage.metadata stage) in
  let index_path_obj := py_get "repo_progress_index_path" metadata in
  let index_path := py_str index_path_obj in
  NoDup stages.*1 →
  (_refresh_stage_repo_details w fs before).2 = Returned tt →
  json_truthy index_path_obj = true →
  fs index_path = Ok f →
  let cache := _repo_index_cache w in
  let loaded := _load_repo_index_payload cache fs stage_id metadata in
  let refreshed := _refresh_stage_repo_details w fs stages in
  (∀ cached, cache !! stage_id = Some cached →
     CacheEntry.mtime cached = st_mtime f →
     loaded = ([EvStat index_path], Returned (Some cached))
     ∧ _repo_index_cache refreshed.1 !! stage_id = Some cached)
  ∧ ((∀ cached, cache !! stage_id = Some cached →
        CacheEntry.mtime cached ≠ st_mtime f) →
     (decoded f = Caught →
      loaded = ([EvStat index_path; EvRead index_path], Returned None)
      ∧ _repo_index_cache refreshed.1 !! stage_id = None)
     ∧ (∀ e, decoded f = Uncaught e →
        loaded = ([EvStat index_path; EvRead index_path], Raised e)
        ∧ refreshed.2 = Raised e
        ∧ _repo_index_cache refreshed.1 !! stage_id = cache !! stage_id)).
Proof.
  intros stages metadata index_path_obj index_path Hnodup Hbefore Htruthy Hf
    cache loaded refreshed.
  pose proof (refresh_stage_repo_details_at w fs before after stage_id stage
                Hnodup Hbefore) as Hat.
  fold metadata cache loaded stages refreshed in Hat.
  split.
  - intros cached Hcached Hmtime.
    assert (loaded = ([EvStat index_path], Returned (Some cached))) as Hhit
      by by apply (load_repo_index_payload_hit cache fs stage_id metadata cached f).
    split; [done|]. by rewrite Hhit in Hat.
  - intros Hmiss.
    assert (loaded = ([EvStat index_path; EvRead index_path], reloaded index_path f))
      as Hloaded
      by by apply (load_repo_index_payload_miss cache fs stage_id metadata f).
    unfold reloaded in Hloaded. split.
    + intros Hdec. rewrite Hdec in Hloaded. split; [done|]. by rewrite Hloaded in Hat.
    + intros e Hdec. rewrite Hdec in Hloaded. split; [done|]. by rewrite Hloaded in Hat.
Qed.

End CacheClaims.

(** ** Normalizing repo index entries *)

Lemma example_str_nonempty (v : json) :
  json_truthy v = true → example_str v ≠ "".
Proof.
  destruct v as [|[]|z|q|s|l|o]; simpl; try done.
  - intros _. destruct (Z.to_int z) as [[]|[]]; done.
  - by intros ?%truthy_true.
Qed.

Lemma list_fmap_filter_strip {A : Type} (f : A → string) (l : list A) :
  f <$> filter (fun x => PyStr.truthy (f x) = true) l
  = filter (fun m => m ≠ "") (f <$> l).
Proof.
  induction l as [|x l IH]; [done|].
  rewrite fmap_cons, !filter_cons.
  destruct (decide (PyStr.truthy (f x) = true)) as [Ht|Hf].
  - rewrite decide_True by by apply truthy_true. by rewrite fmap_cons, IH.
  - rewrite decide_False; [done|]. by rewrite <- truthy_true.
Qed.

Section NormalizeClaims.
Context {rt : PyRuntime}.

Lemma py_str_nonempty (v : json) :
  (∀ v, json_truthy v = true → str_of_value v ≠ "") →
  json_truthy v = true → py_str v ≠ "".
Proof.
  intros Hstr Hv. destruct v; simpl; try by apply Hstr.
  by apply truthy_true.
Qed.

Lemma normalized_messages_list (l : list json) :
  _normalized_messages (JArr l)
  = filter (fun m => m ≠ "") ((fun msg => PyStr.strip (py_str msg)) <$> l).
Proof.
  unfold _normalized_messages.
  apply (list_fmap_filter_strip (fun msg => PyStr.strip (py_str msg))).
Qed.

(** C9, as the code has it.  Normalizing an entry that is a JSON object
    resolves the detail path when the entry gives one, a string that is not
    empty, joined to the entries directory; when resolving raises, the
    normalization raises the same exception and gives no entry.  Otherwise
    it gives an entry.  Its display name is not empty: the entry's own when
    that is truthy, else the repo id when that is not empty, else "<repo>".
    The status is "pending" when absent or empty, and the string given
    otherwise; the update time is the empty string when absent.  The
    messages are the trimmed, non-blank ones of a list, or the trimmed
    string alone when the preview is a non-blank string, and none
    otherwise.  The detail path is the resolved one, and [None] when the
    entry gives none.  A load takes the entries directory from the
    payload, or the directory of the index file when the payload names
    none. *)
Theorem C9_normalize_repo_entry (fields : list (string * json))
    (entries_dir : string) :
  (∀ v, json_truthy v = true → str_of_value v ≠ "") →
  (∀ d e, py_get "detail_path" fields = JStr d → d ≠ "" →
     path_resolve (path_join entries_dir d) = Raised e →
     _normalize_repo_entry (JObj fields) entries_dir = Raised e)
  ∧ ((∀ d, py_get "detail_path" fields = JStr d → d ≠ "" →
        ∃ resolved, path_resolve (path_join entries_dir d) = Returned resolved) →
     ∃ entry,
       _normalize_repo_entry (JObj fields) entries_dir = Returned (Some entry)
       ∧ RepoEntry.display_name entry ≠ ""
       ∧ RepoEntry.repo_id entry = str_or (py_get "repo_id" fields) ""
       ∧ RepoEntry.display_name entry
         = (if json_truthy (py_get "display_name" fields)
            then py_str (py_get "display_name" fields)
            else if PyStr.truthy (RepoEntry.repo_id entry) then RepoEntry.repo_id entry
            else "<repo>")
       ∧ (assoc_get "status" fields = None ∨ assoc_get "status" fields = Some (JStr "")
          → RepoEntry.status entry = "pending")
       ∧ (∀ s, assoc_get "status" fields = Some (JStr s) → s ≠ "" →
            RepoEntry.status entry = s)
       ∧ (assoc_get "updated_at" fields = None → RepoEntry.updated_at entry = "")
       ∧ (∀ s, assoc_get "updated_at" fields = Some (JStr s) →
            RepoEntry.updated_at entry = s)
       ∧ (∀ ss, py_get "message_preview" fields = JArr (JStr <$> ss) →
            RepoEntry.messages entry = filter (fun m => m ≠ "") (PyStr.strip <$> ss))
       ∧ (∀ l, py_get "message_preview" fields = JArr l →
            RepoEntry.messages entry
            = filter (fun m => m ≠ "") ((fun msg => PyStr.strip (py_str msg)) <$> l))
       ∧ (∀ s, py_get "message_preview" fields = JStr s →
            RepoEntry.messages entry = filter (fun m => m ≠ "") [PyStr.strip s])
       ∧ (assoc_get "message_preview" fields = None → RepoEntry.messages entry = [])
       ∧ (∀ d resolved, py_get "detail_path" fields = JStr d → d ≠ "" →
            path_resolve (path_join entries_dir d) = Returned resolved →
            RepoEntry.detail_path entry = Some resolved)
       ∧ ((∀ d, py_get "detail_path" fields = JStr d → d = "") →
          RepoEntry.detail_path entry = None))
  ∧ (∀ cache fs stage_id metadata f payload,
       let index_path_obj := py_get "repo_progress_index_path" metadata in
       let index_path := py_str index_path_obj in
       json_truthy index_path_obj = true →
       fs index_path = Ok f →
       cache !! stage_id = None →
       decoded f = Ok (JObj payload) →
       (_load_repo_index_payload cache fs stage_id metadata).2
       = match _normalize_repo_entries (py_get "entries" payload)
                 (if json_truthy (py_get "entries_dir" payload)
                  then py_str (py_get "entries_dir" payload)
                  else path_parent index_path) with
         | Returned entries =>
             Returned (Some (CacheEntry.Make index_path (st_mtime f) entries))
         | Raised e => Raised e
         end).
Proof.
  intros Hstr. split_and!.
  - intros d e Hd Hne Hraised. simpl. unfold resolve_detail_path.
    rewrite Hd. apply truthy_true in Hne as ->. by rewrite Hraised.
  - intros Hresolves.
    assert (∃ detail_path,
      resolve_detail_path (py_get "detail_path" fields) entries_dir
      = Returned detail_path
      ∧ (∀ d resolved, py_get "detail_path" fields = JStr d → d ≠ "" →
           path_resolve (path_join entries_dir d) = Returned resolved →
           detail_path = Some resolved)
      ∧ ((∀ d, py_get "detail_path" fields = JStr d → d = "") →
         detail_path = None)) as (detail_path & Hdetail & Hsome & Hnone).
    { unfold resolve_detail_path.
      destruct (py_get "detail_path" fields) as [| | | |d| |] eqn:Hd;
        try (exists None; split_and!; [done| |done]; intros ???; discriminate).
      destruct (PyStr.truthy d) eqn:Ht.
      - apply truthy_true in Ht.
        destruct (Hresolves d eq_refl Ht) as [resolved Hres]. rewrite Hres.
        exists (Some resolved). split_and!; [done| |].
        + intros d' resolved' [= <-] _ Hres'. congruence.
        + intros Hempty. by specialize (Hempty d eq_refl).
      - exists None. split_and!; [done| |done].
        intros d' resolved' [= <-] Hne. by apply truthy_true in Hne; congruence. }
    simpl. rewrite Hdetail. eexists. split; [reflexivity|]. simpl.
    split_and!.
    + unfold str_or at 1.
      destruct (json_truthy (py_get "display_name" fields)) eqn:Hd.
      * by apply py_str_nonempty.
      * destruct (PyStr.truthy _) eqn:Hr; [by apply truthy_true|done].
    + done.
    + done.
    + unfold py_get. by intros [-> | ->].
    + unfold py_get, str_or. intros s -> Hs. simpl. by apply truthy_true in Hs as ->.
    + unfold py_get. by intros ->.
    + unfold py_get, str_or. intros s ->. simpl.
      destruct (PyStr.truthy s) eqn:Hs; [done|]. by apply truthy_false in Hs.
    + intros ss ->. rewrite normalized_messages_list. by rewrite <- list_fmap_compose.
    + intros l ->. apply normalized_messages_list.
    + intros s ->. simpl. rewrite filter_cons, filter_nil.
      destruct (PyStr.truthy (PyStr.strip s)) eqn:Hs.
      * by rewrite decide_True by by apply truthy_true.
      * rewrite decide_False; [done|]. intros Hne. by apply Hne, truthy_false.
    + unfold py_get. by intros ->.
    + done.
    + done.
  - intros cache fs stage_id metadata f payload index_path_obj index_path
      Htruthy Hf Hcache Hdec.
    rewrite (load_repo_index_payload_miss cache fs stage_id metadata f); [|done..|].
    + simpl. unfold reloaded. rewrite Hdec. unfold str_or.
      by destruct (_normalize_repo_entries _ _).
    + intros c. by rewrite Hcache.
Qed.

End NormalizeClaims.

(** The theorem at an entry without a display name, with the example
    runtime. *)
Lemma C9_normalize_repo_entry_witness :
  ∃ entry,
    _normalize_repo_entry (rt := example_runtime)
      (JObj [("repo_id", JStr "core");
             ("message_preview", JArr [JStr " built "; JStr "  "]);
             ("detail_path", JStr "core.json")]) "/idx" = Returned (Some entry)
    ∧ RepoEntry.display_name entry ≠ ""
    ∧ RepoEntry.detail_path entry = Some "/idx/core.json".
Proof.
  destruct (C9_normalize_repo_entry (rt := example_runtime)
              [("repo_id", JStr "core");
               ("message_preview", JArr [JStr " built "; JStr "  "]);
               ("detail_path", JStr "core.json")] "/idx" example_str_nonempty)
    as (_ & Hentry & _).
  destruct Hentry
    as (entry & Hentry & Hdisplay & _ & _ & _ & _ & _ & _ & _ & _ & _ & _ & Hdetail & _).
  - intros d [= <-] _. by eexists.
  - exists entry. split_and!; [done..|].
    by apply (Hdetail "core.json").
Defined.

(** C9 as the spec words it fails for an object whose detail path cannot be
    resolved: a path with a NUL character makes [Path.resolve] raise
    [ValueError], and the normalization gives no entry. *)
Lemma C9_normalize_repo_entry_counterexample :
  let entry := JObj [("repo_id", JStr "core");
                     ("detail_path", JStr (String "000" "core.json"))] in
  _normalize_repo_entry (rt := example_runtime) entry "/idx" = Raised ValueError
  ∧ (∀ normalized,
       _normalize_repo_entry (rt := example_runtime) entry "/idx"
       ≠ Returned (Some normalized))
  ∧ _normalize_repo_entries (rt := example_runtime)
      (JArr [JObj [("repo_id", JStr "first")]; entry]) "/idx" = Raised ValueError.
Proof. split_and!; [reflexivity|discriminate|reflexivity]. Qed.

Example normalize_repo_entry_example :
  _normalize_repo_entry (rt := example_runtime)
    (JObj [("repo_id", JStr "core");
           ("message_preview", JArr [JStr " built "; JStr "  "]);
           ("detail_path", JStr "core.json")]) "/idx"
  = Returned (Some (RepoEntry.Make "core" "core" "pending" "" ["built"]
                      (Some "/idx/core.json"))).
Proof. reflexivity. Qed.

(** ** The cache claims on an index file of the stage alpha *)

(** The theorem with the entry cached at modification time 1: the file at
    time 1 is not read, the file at time 2 is. *)
Lemma C4_cache_hit_by_mtime_witness :
  _load_repo_index_payload (rt := example_runtime) {[ "alpha" := example_cached ]}
    (example_fs 1 (Ok (JObj []))) "alpha"
    [("repo_progress_index_path", JStr "/idx/alpha.json")]
  = ([EvStat "/idx/alpha.json"], Returned (Some example_cached))
  ∧ (_load_repo_index_payload (rt := example_runtime) {[ "alpha" := example_cached ]}
       (example_fs 2 (Ok (JObj []))) "alpha"
       [("repo_progress_index_path", JStr "/idx/alpha.json")]).1
    = [EvStat "/idx/alpha.json"; EvRead "/idx/alpha.json"].
Proof.
  split.
  - apply (C4_cache_hit_by_mtime (rt := example_runtime) {[ "alpha" := example_cached ]}
             (example_fs 1 (Ok (JObj []))) "alpha"
             [("repo_progress_index_path", JStr "/idx/alpha.json")]
             example_cached (File 1 (Ok (JObj [])))); reflexivity.
  - apply (C4_cache_hit_by_mtime (rt := example_runtime) {[ "alpha" := example_cached ]}
             (example_fs 2 (Ok (JObj []))) "alpha"
             [("repo_progress_index_path", JStr "/idx/alpha.json")]
             example_cached (File 2 (Ok (JObj [])))); try reflexivity.
    discriminate.
Defined.

(** The theorem with the entry cached at modification time 1 and the file,
    now at time 2: when it does not decode, the refresh leaves no entry;
    when its bytes are not UTF-8, the refresh raises and the entry stays. *)
Lemma C3_unreadable_index_evicted_witness :
  _repo_index_cache
    (_refresh_stage_repo_details (rt := example_runtime) example_widget
       (example_fs 2 Caught) [("alpha", example_stage)]).1 !! "alpha" = None
  ∧ (_refresh_stage_repo_details (rt := example_runtime) example_widget
       (example_fs 2 (Uncaught UnicodeDecodeError)) [("alpha", example_stage)]).2
    = Raised UnicodeDecodeError
  ∧ _repo_index_cache
      (_refresh_stage_repo_details (rt := example_runtime) example_widget
         (example_fs 2 (Uncaught UnicodeDecodeError))
         [("alpha", example_stage)]).1 !! "alpha" = Some example_cached.
Proof.
  assert (Hmiss : ∀ cached,
    _repo_index_cache example_widget !! "alpha" = Some cached →
    CacheEntry.mtime cached ≠ 2%Z).
  { intros cached Hcached.
    assert (Some example_cached = Some cached) as [= <-] by exact Hcached.
    discriminate. }
  split.
  - destruct (C3_unreadable_index_evicted (rt := example_runtime) example_widget
                (example_fs 2 Caught) [] [] "alpha" example_stage (File 2 Caught))
      as [_ Hread]; [apply NoDup_singleton|reflexivity..|].
    destruct (Hread Hmiss) as [Hcaught _]. by apply Hcaught.
  - destruct (C3_unreadable_index_evicted (rt := example_runtime) example_widget
                (example_fs 2 (Uncaught UnicodeDecodeError)) [] [] "alpha"
                example_stage (File 2 (Uncaught UnicodeDecodeError)))
      as [_ Hread]; [apply NoDup_singleton|reflexivity..|].
    destruct (Hread Hmiss) as [_ Huncaught].
    destruct (Huncaught UnicodeDecodeError eq_refl) as (_ & Hraised & Hkept).
    split; [exact Hraised|exact Hkept].
Defined.

(** C3 as the spec words it fails: the stage has a cached entry, the stat of
    its index file succeeds, the file does not decode, and after the
    refresh the entry is gone. *)
Lemma C3_unreadable_index_counterexample :
  _repo_index_cache example_widget !! "alpha" = Some example_cached
  ∧ _safe_stat (example_fs 2 Caught) "/idx/alpha.json" = Returned (Some 2%Z)
  ∧ _read_json_payload (example_fs 2 Caught) "/idx/alpha.json" = Returned None
  ∧ (_load_repo_index_payload (rt := example_runtime)
       (_repo_index_cache example_widget) (example_fs 2 Caught) "alpha"
       [("repo_progress_index_path", JStr "/idx/alpha.json")]).2 = Returned None
  ∧ (_refresh_stage_repo_details (rt := example_runtime) example_widget
       (example_fs 2 Caught) [("alpha", example_stage)]).2 = Returned tt
  ∧ _repo_index_cache
      (_refresh_stage_repo_details (rt := example_runtime) example_widget
         (example_fs 2 Caught) [("alpha", example_stage)]).1 !! "alpha" = None.
Proof. by split_and!. Qed.


(** ** Two further facts *)

Section Further.
Context {rt : PyRuntime}.

(** An index file that decodes to a JSON value that is neither [None] nor a
    [dict] makes the load raise [AttributeError] once it is read; the
    refresh that reaches the stage raises with it, before pruning: the
    entries cached under ids that are not among the stages are still
    there, and so is what was cached for the stage itself. *)
Theorem load_raises_on_non_object (w : widget) (fs : filesystem)
    (before after : list (string * Stage.t)) (stage_id : string) (stage : Stage.t)
    (f : file) (payload : json) :
  let stages := before ++ (stage_id, stage) :: after in
  let metadata := default [] (Stage.metadata stage) in
  let index_path_obj := py_get "repo_progress_index_path" metadata in
  NoDup stages.*1 →
  (_refresh_stage_repo_details w fs before).2 = Returned tt →
  json_truthy index_path_obj = true →
  fs (py_str index_path_obj) = Ok f →
  (∀ cached, _repo_index_cache w !! stage_id = Some cached →
     CacheEntry.mtime cached ≠ st_mtime f) →
  decoded f = Ok payload →
  payload ≠ JNull →
  (∀ fields, payload ≠ JObj fields) →
  let refreshed := _refresh_stage_repo_details w fs stages in
  (_load_repo_index_payload (_repo_index_cache w) fs stage_id metadata).2
  = Raised AttributeError
  ∧ refreshed.2 = Raised AttributeError
  ∧ (∀ id, id ∉ stages.*1 →
       _repo_index_cache refreshed.1 !! id = _repo_index_cache w !! id)
  ∧ _repo_index_cache refreshed.1 !! stage_id = _repo_index_cache w !! stage_id.
Proof.
  intros stages metadata index_path_obj Hnodup Hbefore Htruthy Hf Hmiss Hdec
    Hnull Hobj refreshed.
  assert ((_load_repo_index_payload (_repo_index_cache w) fs stage_id metadata).2
          = Raised AttributeError) as Hload.
  { rewrite (load_repo_index_payload_miss _ fs stage_id metadata f) by done.
    simpl. unfold reloaded. rewrite Hdec.
    destruct payload; try done. by destruct (Hobj fields). }
  pose proof (refresh_stage_repo_details_at w fs before after stage_id stage
                Hnodup Hbefore) as Hat.
  fold metadata stages refreshed in Hat. rewrite Hload in Hat.
  destruct Hat as [Hraised Hkept].
  split_and!; [done..| |done].
  intros id Hid.
  apply (refresh_stage_repo_details_raised w refreshed.1 fs stages AttributeError);
    [|done].
  rewrite <- Hraised. apply surjective_pairing.
Qed.

(** A done status padded with whitespace leaves the item [Checked], and the
    stage is not counted as done. *)
Theorem padded_done_status_not_counted (it : item) (title : string)
    (ms : list string) :
  item_check (_apply_stage_state it title (Some " completed") ms).1 = Checked
  ∧ (_apply_stage_state it title (Some " completed") ms).2 = false.
Proof. split; [by rewrite apply_stage_state_check|done]. Qed.

End Further.

(** The load of an index file holding a JSON array: the refresh raises, and
    the entry cached for a stage the snapshot no longer has is still
    there. *)
Lemma load_raises_on_non_object_witness :
  let w := with_repo_index_cache {[ "old" := example_cached ]} (init []) in
  let refreshed :=
    _refresh_stage_repo_details (rt := example_runtime) w
      (example_fs 2 (Ok (JArr []))) [("alpha", example_stage)] in
  refreshed.2 = Raised AttributeError
  ∧ _repo_index_cache refreshed.1 !! "old" = Some example_cached.
Proof.
  intros w refreshed.
  destruct (load_raises_on_non_object (rt := example_runtime) w
              (example_fs 2 (Ok (JArr []))) [] [] "alpha" example_stage
              (File 2 (Ok (JArr []))) (JArr []))
    as (_ & Hraised & Hstale & _); [apply NoDup_singleton|done..|].
  split; [exact Hraised|].
  rewrite Hstale; [reflexivity|].
  by intros [=]%list_elem_of_singleton.
Defined.

(** * Further properties *)

(** ** Trimming *)

Lemma rstrip_idem (s : string) : PyStr.rstrip (PyStr.rstrip s) = PyStr.rstrip s.
Proof.
  induction s as [|c r IH]; [done|]. simpl.
  destruct (PyStr.rstrip r) as [|a r'] eqn:Hr.
  - destruct (PyStr.is_space c) eqn:Hc; [done|]. simpl. by rewrite Hc.
  - change (PyStr.rstrip (String c (String a r'))) with
      (match PyStr.rstrip (String a r') with
       | EmptyString => if PyStr.is_space c then EmptyString else String c EmptyString
       | r'' => String c r''
       end).
    by rewrite IH.
Qed.

Lemma lstrip_rstrip (s : string) :
  PyStr.lstrip (PyStr.rstrip (PyStr.lstrip s)) = PyStr.rstrip (PyStr.lstrip s).
Proof.
  induction s as [|c r IH]; [done|]. simpl.
  destruct (PyStr.is_space c) eqn:Hc; [done|]. simpl.
  destruct (PyStr.rstrip r); rewrite ?Hc; simpl; by rewrite Hc.
Qed.

Lemma strip_idem (s : string) : PyStr.strip (PyStr.strip s) = PyStr.strip s.
Proof. unfold PyStr.strip. by rewrite lstrip_rstrip, rstrip_idem. Qed.

(** ** The checklist and the stage definitions *)

Lemma build_items_rows (defs : list (string * string)) (rows : list item)
    (items : gmap string nat) :
  (build_items defs rows items).1 = rows ++ (initial_row <$> defs).
Proof.
  revert rows items. induction defs as [|[stage_id title] rest IH];
    intros rows items; simpl.
  - by rewrite app_nil_r.
  - by rewrite IH, <- app_assoc.
Qed.

Lemma build_items_data (defs : list (string * string)) (rows : list item)
    (items : gmap string nat) :
  (∀ id row, items !! id = Some row → item_data <$> (rows !! row) = Some id) →
  ∀ id row, (build_items defs rows items).2 !! id = Some row →
    item_data <$> ((build_items defs rows items).1 !! row) = Some id.
Proof.
  revert rows items. induction defs as [|[stage_id title] rest IH];
    intros rows items Hdata; simpl; [done|].
  apply IH. intros id row.
  destruct (decide (stage_id = id)) as [<- | Hne].
  - rewrite lookup_insert_eq. intros [= <-].
    by rewrite lookup_app_r, Nat.sub_diag by done.
  - rewrite lookup_insert_ne by done. intros Hid.
    specialize (Hdata id row Hid).
    destruct (rows !! row) as [it|] eqn:Hrow; [|done].
    by rewrite (lookup_app_l_Some _ _ _ _ Hrow).
Qed.

Lemma apply_loop_data (defs : list (string * string)) (items : gmap string nat)
    (stages : list (string * Stage.t)) (rows : list item) (b : bool) :
  item_data <$> (apply_loop defs items stages rows b).1 = item_data <$> rows.
Proof.
  revert rows b. induction defs as [|[stage_id title] rest IH]; intros rows b.
  - done.
  - destruct (tracked_row_dec items rows stage_id) as [(row & it & Hrow & Hit) | Hno].
    + rewrite (apply_loop_cons_apply _ _ _ _ _ _ _ _ _ Hrow Hit), IH.
      rewrite list_fmap_insert. apply list_insert_id.
      by rewrite list_lookup_fmap, Hit.
    + by rewrite (apply_loop_cons_skip stage_id title).
Qed.

Lemma discover_loop_mirror (stages : list (string * Stage.t)) (w : widget) :
  rows_mirror_definitions w → rows_mirror_definitions (discover_loop stages w).
Proof.
  revert w. induction stages as [|[stage_id stage] rest IH]; intros w Hm; simpl.
  - done.
  - destruct (_items w !! stage_id) eqn:Hs; [by apply IH|].
    apply IH. destruct Hm as [Hrows Hdata]. split; simpl.
    + by rewrite !fmap_app, Hrows.
    + intros id row.
      destruct (decide (stage_id = id)) as [<- | Hne].
      * rewrite lookup_insert_eq. intros [= <-].
        by rewrite lookup_app_r, Nat.sub_diag by done.
      * rewrite lookup_insert_ne by done. intros Hid.
        specialize (Hdata id row Hid).
        destruct (_checklist w !! row) as [it|] eqn:Hrow; [|done].
        by rewrite (lookup_app_l_Some _ _ _ _ Hrow).
Qed.

Lemma merge_stages_mirror (w : widget) (stages : list (string * Stage.t)) :
  rows_mirror_definitions w → rows_mirror_definitions (merge_stages w stages).1.
Proof.
  intros Hm. rewrite merge_stages_fields. simpl.
  destruct (discover_loop_mirror stages w Hm) as [Hrows Hdata].
  split; simpl.
  - by rewrite apply_loop_data.
  - intros id row Hid. rewrite <- list_lookup_fmap, apply_loop_data, list_lookup_fmap.
    by apply Hdata.
Qed.

Lemma init_mirror (defs : list (string * string)) :
  rows_mirror_definitions (init defs).
Proof.
  destruct (init_fields defs) as (Hd & Hi & Hc & _).
  split; rewrite ?Hd, ?Hi, ?Hc.
  - rewrite build_items_rows. simpl. rewrite <- list_fmap_compose.
    by apply list_fmap_ext.
  - apply build_items_data. intros id row. by rewrite lookup_empty.
Qed.

Section Mirror.
Context {rt : PyRuntime}.

Lemma step_mirror (w : widget) (o : op) :
  rows_mirror_definitions w → rows_mirror_definitions (step w o).
Proof.
  intros Hm. pose proof (step_checklist w o) as H.
  assert (∀ w0 w1, _checklist w1 = _checklist w0 → _items w1 = _items w0 →
            _stage_definitions w1 = _stage_definitions w0 →
            rows_mirror_definitions w0 → rows_mirror_definitions w1) as Htransfer.
  { intros w0 w1 Hc Hi Hd. unfold rows_mirror_definitions. by rewrite Hc, Hi, Hd. }
  destruct o as [[snap|] fs wd | row | |]; cbv beta iota zeta in H;
    destruct H as (Hc & Hi & Hd);
    try (by apply (Htransfer w)).
  apply (Htransfer (merge_stages w (snapshot_stages snap)).1); [done..|].
  by apply merge_stages_mirror.
Qed.

(** The checklist mirrors the stage definitions.  However the widget was
    built and whatever happened to it since, the rows of the checklist
    carry the ids of the stage definitions, in the same order, and the item
    filed under a stage id carries that id. *)
Theorem checklist_mirrors_definitions (defs : list (string * string))
    (ops : list op) :
  let w := run (init defs) ops in
  item_data <$> _checklist w = (_stage_definitions w).*1
  ∧ length (_checklist w) = length (_stage_definitions w)
  ∧ ∀ id row, _items w !! id = Some row →
      item_data <$> (_checklist w !! row) = Some id.
Proof.
  intros w.
  assert (rows_mirror_definitions w) as [Hrows Hdata].
  { subst w. generalize (init_mirror defs). generalize (init defs).
    induction ops as [|o ops IH]; intros w Hm; simpl; [done|].
    apply IH. by apply step_mirror. }
  split_and!; [done| |done].
  by rewrite <- (length_fmap item_data), Hrows, length_fmap.
Qed.

End Mirror.

Lemma build_items_tracked (defs : list (string * string)) (rows : list item)
    (items : gmap string nat) (id : string) :
  is_Some ((build_items defs rows items).2 !! id)
  ↔ id ∈ defs.*1 ∨ is_Some (items !! id).
Proof.
  revert rows items.
  induction defs as [|[stage_id title] rest IH]; intros rows items; simpl.
  - rewrite elem_of_nil. naive_solver.
  - rewrite IH, elem_of_cons.
    destruct (decide (stage_id = id)) as [<- | Hne].
    + rewrite lookup_insert_eq. naive_solver.
    + rewrite lookup_insert_ne by done. naive_solver.
Qed.

(** What [__init__] shows: a row of the title and " - pending", unchecked,
    for each stage definition, in order; the first row selected; the timer
    running; nothing cached and no rows in the table. *)
Theorem init_checklist (defs : list (string * string)) :
  _checklist (init defs) = initial_row <$> defs
  ∧ _stage_definitions (init defs) = defs
  ∧ _current_stage_id (init defs) = fst <$> head defs
  ∧ _selected_stage_id (init defs) = fst <$> head defs
  ∧ (∀ id, is_Some (_items (init defs) !! id) ↔ id ∈ defs.*1)
  ∧ _timer_active (init defs) = true
  ∧ _completion_triggered (init defs) = false
  ∧ _repo_index_cache (init defs) = ∅
  ∧ _detail_table (init defs) = [].
Proof.
  assert (Hrows : (build_items defs [] ∅).1 = initial_row <$> defs)
    by apply build_items_rows.
  assert (Hitems : ∀ id, is_Some ((build_items defs [] ∅).2 !! id) ↔ id ∈ defs.*1).
  { intros id. rewrite build_items_tracked, lookup_empty. split; [|by left].
    by intros [? | [? ?]]. }
  unfold init, _current_stage_id.
  destruct (build_items defs [] ∅) as [rows items]. simpl in *. subst rows.
  split_and!; try done; destruct defs as [|[id title] rest]; done.
Qed.

(** ** The stages of a snapshot *)

(** The stages of a snapshot as the update files them.  No two are under
    the same id; an id is there exactly when a stage of the snapshot
    carries it; where several stages carry one id, the data of the last is
    used; and a snapshot whose stages are keyed by their own ids, each
    once, is taken as it is. *)
Theorem snapshot_stages_by_id (snapshot : Snapshot.t) :
  let raw := Snapshot.stages snapshot in
  NoDup (snapshot_stages snapshot).*1
  ∧ (∀ id, id ∈ (snapshot_stages snapshot).*1 ↔ id ∈ (rekey <$> raw).*1)
  ∧ (∀ id, assoc_get id (snapshot_stages snapshot)
           = assoc_get id (rev (rekey <$> raw)))
  ∧ (NoDup raw.*1 → Forall (fun entry => rekey entry = entry) raw →
     snapshot_stages snapshot = raw).
Proof.
  intros raw. unfold snapshot_stages. fold raw. split_and!.
  - apply collect_stages_nodup.
  - apply collect_stages_keys.
  - intros id. induction raw as [|entry raw' IH] using rev_ind; [done|].
    rewrite collect_stages_snoc, assoc_get_odict_set, fmap_app, rev_app_distr.
    simpl. by rewrite IH.
  - induction raw as [|entry raw' IH] using rev_ind; [done|].
    rewrite fmap_app, NoDup_app, Forall_app, Forall_singleton.
    intros (Hnodup & Hfresh & _) [Hkeyed Hentry].
    rewrite collect_stages_snoc, IH, Hentry by done.
    rewrite odict_set_fresh; [by destruct entry|].
    intros Hin. apply (Hfresh _ Hin). simpl. by left.
Qed.

(** ** Discovering stages *)

Lemma filter_ext_elem {A : Type} (P Q : A → Prop) `{!∀ x, Decision (P x)}
    `{!∀ x, Decision (Q x)} (l : list A) :
  (∀ x, x ∈ l → P x ↔ Q x) → filter P l = filter Q l.
Proof.
  induction l as [|x l IH]; intros Hext; [done|].
  rewrite !filter_cons.
  rewrite IH by (intros y Hy; apply Hext; by right).
  destruct (decide (P x)) as [HP|HP]; destruct (decide (Q x)) as [HQ|HQ];
    try done; destruct (Hext x); try (by left); tauto.
Qed.

Lemma discover_loop_appends (stages : list (string * Stage.t)) (w : widget) :
  NoDup stages.*1 →
  _stage_definitions (discover_loop stages w)
  = _stage_definitions w ++ (discovered_definition <$> untracked w stages)
  ∧ _checklist (discover_loop stages w)
    = _checklist w
      ++ ((fun entry => Item entry.1 "" Unchecked) <$> untracked w stages).
Proof.
  revert w. induction stages as [|[stage_id stage] rest IH]; intros w Hnodup.
  - simpl. by rewrite !app_nil_r.
  - apply NoDup_cons in Hnodup as [Hfresh Hnodup]. simpl.
    unfold untracked. rewrite filter_cons. simpl.
    destruct (_items w !! stage_id) as [row|] eqn:Hs.
    + rewrite decide_False by done. by apply IH.
    + rewrite decide_True by done.
      match goal with |- context [discover_loop rest ?w1] =>
        destruct (IH w1 Hnodup) as [Hd Hc];
        assert (untracked w1 rest = untracked w rest) as Huntracked end.
      { apply filter_ext_elem. intros [id st] Hin. simpl.
        rewrite lookup_insert_ne; [done|]. intros ->. apply Hfresh.
        apply list_elem_of_fmap. by exists (id, st). }
      rewrite Huntracked in Hd, Hc. rewrite Hd, Hc. unfold untracked. simpl.
      by rewrite <- !app_assoc.
Qed.

Lemma discover_loop_tracked (stages : list (string * Stage.t)) (w : widget) :
  (∀ id, id ∈ stages.*1 → is_Some (_items w !! id)) →
  discover_loop stages w = w.
Proof.
  induction stages as [|[stage_id stage] rest IH]; intros Hall; simpl; [done|].
  destruct (Hall stage_id) as [row ->]; [by left|].
  apply IH. intros id Hid. apply Hall. by right.
Qed.

Lemma filter_none {A : Type} (P : A → Prop) `{!∀ x, Decision (P x)}
    (l : list A) :
  (∀ x, x ∈ l → ¬ P x) → filter P l = [].
Proof.
  induction l as [|x l IH]; intros Hnone; [done|].
  rewrite filter_cons, decide_False by (apply Hnone; by left).
  apply IH. intros y Hy. apply Hnone. by right.
Qed.

Section Discovery.
Context {rt : PyRuntime}.

Lemma update_from_snapshot_rows_data (w : widget) (fs : filesystem)
    (snapshot : Snapshot.t) :
  item_data <$> _checklist (_update_from_snapshot w fs snapshot).1
  = (item_data <$> _checklist w) ++ (untracked w (snapshot_stages snapshot)).*1.
Proof.
  destruct (update_from_snapshot_board w fs snapshot) as (Hc & _).
  rewrite merge_stages_fields in Hc. simpl in Hc.
  destruct (discover_loop_appends (snapshot_stages snapshot) w
              (collect_stages_nodup _)) as [_ Hrows].
  rewrite Hc, apply_loop_data, Hrows, fmap_app. f_equal.
  rewrite <- list_fmap_compose. by apply list_fmap_ext.
Qed.

(** An update tracks the stages it discovers.  For each stage of the
    snapshot without an item, in the snapshot's order, it appends one stage
    definition, of the stage's id and its title or else its id, and one row
    carrying the id; the definitions and rows it had stay in front; and a
    second look at the same stages finds none to add. *)
Theorem update_appends_discovered (w : widget) (fs : filesystem)
    (snapshot : Snapshot.t) :
  let stages := snapshot_stages snapshot in
  let w' := (_update_from_snapshot w fs snapshot).1 in
  _stage_definitions w'
  = _stage_definitions w ++ (discovered_definition <$> untracked w stages)
  ∧ item_data <$> _checklist w'
    = (item_data <$> _checklist w) ++ (untracked w stages).*1
  ∧ length (_checklist w') = length (_checklist w) + length (untracked w stages)
  ∧ untracked w' stages = [].
Proof.
  intros stages w'. subst w'.
  destruct (update_from_snapshot_board w fs snapshot) as (Hc & Hi & Hd & _).
  fold stages in Hc, Hi, Hd.
  rewrite merge_stages_fields in Hc, Hi, Hd. simpl in Hc, Hi, Hd.
  destruct (discover_loop_appends stages w (collect_stages_nodup _)) as [Hdefs Hrows].
  pose proof (update_from_snapshot_rows_data w fs snapshot) as Hdata.
  fold stages in Hdata.
  split_and!.
  - by rewrite Hd.
  - done.
  - rewrite <- (length_fmap item_data), Hdata, length_app, !length_fmap. done.
  - apply filter_none. intros [id st] Hin. simpl. rewrite Hi.
    destruct (discover_loop_covers stages w id) as [row ->]; [|done].
    apply list_elem_of_fmap. by exists (id, st).
Qed.

End Discovery.

(** ** What polls leave alone *)

Lemma discover_loop_view (stages : list (string * Stage.t)) (w : widget) :
  _checklist_selection (discover_loop stages w) = _checklist_selection w
  ∧ _selected_stage_id (discover_loop stages w) = _selected_stage_id w
  ∧ _detail_table (discover_loop stages w) = _detail_table w.
Proof.
  revert w. induction stages as [|[stage_id stage] rest IH]; intros w; simpl.
  - done.
  - destruct (_items w !! stage_id); [apply IH|].
    match goal with |- context [discover_loop rest ?w1] =>
      destruct (IH w1) as (-> & -> & ->) end.
    done.
Qed.

Lemma merge_stages_view (w : widget) (stages : list (string * Stage.t)) :
  _checklist_selection (merge_stages w stages).1 = _checklist_selection w
  ∧ _selected_stage_id (merge_stages w stages).1 = _selected_stage_id w
  ∧ _detail_table (merge_stages w stages).1 = _detail_table w
  ∧ _status_label (merge_stages w stages).1 = _status_label w.
Proof.
  rewrite merge_stages_fields. simpl.
  destruct (discover_loop_view stages w) as (-> & -> & ->).
  by destruct (discover_loop_frame stages w) as (_ & _ & _ & _ & ->).
Qed.

Lemma update_detail_view_table (w : widget) (stage_id : option string) :
  _detail_table (_update_detail_view w stage_id)
  = detail_rows_for (_repo_index_cache w) stage_id
  ∧ _checklist_selection (_update_detail_view w stage_id) = _checklist_selection w
  ∧ _selected_stage_id (_update_detail_view w stage_id) = _selected_stage_id w.
Proof.
  unfold _update_detail_view, detail_rows_for.
  destruct stage_id as [sid|]; [|done].
  by destruct (_repo_index_cache w !! sid).
Qed.

Lemma current_stage_id_same (w w' : widget) :
  _checklist w' = _checklist w →
  _checklist_selection w' = _checklist_selection w →
  _current_stage_id w' = _current_stage_id w.
Proof. intros Hc Hs. unfold _current_stage_id. by rewrite Hc, Hs. Qed.

Lemma handle_completion_view (w : widget) :
  _checklist_selection (_handle_completion w) = _checklist_selection w
  ∧ _detail_table (_handle_completion w) = _detail_table w
  ∧ _repo_index_cache (_handle_completion w) = _repo_index_cache w
  ∧ _status_label (_handle_completion w) = _status_label w.
Proof. unfold _handle_completion. by destruct (_completion_triggered w). Qed.

Section Frames.
Context {rt : PyRuntime}.

Lemma refresh_stage_repo_details_view (w : widget) (fs : filesystem)
    (stages : list (string * Stage.t)) :
  _checklist_selection (_refresh_stage_repo_details w fs stages).1
  = _checklist_selection w
  ∧ _detail_table (_refresh_stage_repo_details w fs stages).1 = _detail_table w.
Proof.
  unfold _refresh_stage_repo_details.
  by destruct (refresh_loop _ _ _ _ _) as [[cache tr] [observed|e]].
Qed.

(** An update keeps the selection; after completion it keeps the banner;
    and when it returns, the table shows the selected stage's entries. *)
Lemma update_from_snapshot_view (w : widget) (fs : filesystem)
    (snapshot : Snapshot.t) :
  let updated := _update_from_snapshot w fs snapshot in
  _checklist_selection updated.1 = _checklist_selection w
  ∧ (_completion_triggered w = true → _status_label updated.1 = _status_label w)
  ∧ (updated.2 = Returned tt → detail_view_current updated.1).
Proof.
  unfold _update_from_snapshot, detail_view_current.
  pose proof (merge_stages_view w (snapshot_stages snapshot)) as (Hs1 & _ & _ & Hl1).
  pose proof (merge_stages_triggered w (snapshot_stages snapshot)) as (Ht1 & _).
  destruct (merge_stages w (snapshot_stages snapshot)) as [w1 all_done].
  simpl in *.
  pose proof (refresh_stage_repo_details_view w1 fs (snapshot_stages snapshot))
    as (Hs2 & _).
  pose proof (refresh_stage_repo_details_board w1 fs (snapshot_stages snapshot))
    as [(_ & _ & _ & Ht2 & _) Hl2].
  destruct (_refresh_stage_repo_details w1 fs (snapshot_stages snapshot))
    as [w2 [[]|e]]; simpl in *.
  - pose proof (update_detail_view_table w2 (_current_stage_id w2))
      as (Htable & Hs3 & _).
    pose proof (update_detail_view_trace w2 (_current_stage_id w2))
      as (_ & Hcache & Hl3).
    pose proof (update_detail_view_board w2 (_current_stage_id w2))
      as (Hc3 & _ & _ & Ht3 & _).
    set (w3 := _update_detail_view w2 (_current_stage_id w2)) in *.
    assert (_current_stage_id w3 = _current_stage_id w2) as Hcur
      by by apply current_stage_id_same.
    destruct (snapshot_stages snapshot) as [|s rest]; simpl.
    + split_and!; [congruence|intros; congruence|].
      intros _. by rewrite Htable, Hcache, Hcur.
    + destruct (_completion_triggered w3) eqn:Ht; simpl.
      * split_and!; [congruence|intros; congruence|].
        intros _. by rewrite Htable, Hcache, Hcur.
      * split_and!; [destruct all_done; simpl; congruence|intros; congruence|].
        intros _. destruct all_done; simpl;
          (rewrite Htable; unfold _current_stage_id; simpl;
           fold (_current_stage_id w3); by rewrite Hcache, Hcur).
  - split_and!; [congruence|intros; congruence|done].
Qed.

(** What a poll does besides the checklist: it keeps the selection; after
    completion it keeps the banner; it keeps the timer unless it completes;
    and with a snapshot, when it returns, the table is current. *)
Lemma refresh_snapshot_view (w : widget) (snapshot : option Snapshot.t)
    (fs : filesystem) (worker_done : bool) :
  let polled := _refresh_snapshot w snapshot fs worker_done in
  _checklist_selection polled.1 = _checklist_selection w
  ∧ (_completion_triggered w = true →
     _completion_triggered polled.1 = true
     ∧ _status_label polled.1 = _status_label w)
  ∧ ((_completion_triggered polled.1 = _completion_triggered w
      ∧ _timer_active polled.1 = _timer_active w)
     ∨ (_completion_triggered w = false
        ∧ _completion_triggered polled.1 = true
        ∧ _timer_active polled.1 = false
        ∧ _status_label polled.1 = "Tooling finished. Command center unlocking..."))
  ∧ (match snapshot with
     | Some _ => polled.2 = Returned tt → detail_view_current polled.1
     | None => detail_view_current w → detail_view_current polled.1
     end).
Proof.
  unfold _refresh_snapshot. destruct snapshot as [snap|]; simpl.
  - pose proof (update_from_snapshot_view w fs snap) as (Hs & Hl & Hv).
    pose proof (update_from_snapshot_board w fs snap) as (Hc & _ & _ & Ht & Htm).
    pose proof (merge_stages_triggered w (snapshot_stages snap)) as (Ht' & _ & _ & Htm').
    rewrite Ht' in Ht. rewrite Htm' in Htm.
    destruct (_update_from_snapshot w fs snap) as [w1 [[]|e]]; simpl in *.
    + destruct worker_done; simpl.
      * destruct (_completion_triggered w1) eqn:Ht1; simpl.
        -- split_and!; [done|intros Htw; split; [congruence|by apply Hl]|left; split; congruence|by apply Hv].
        -- match goal with |- context [_handle_completion ?x] =>
             pose proof (handle_completion_view x) as (Hs' & Htab & Hca & Hla);
             pose proof (handle_completion_trace x) as Htr;
             pose proof (handle_completion_checklist x) as (Hck & _);
             set (w2 := _handle_completion x) in * end.
           simpl in *. rewrite Ht1 in Htr. destruct Htr as (Ht2 & Htm2 & _).
           split_and!.
           ++ congruence.
           ++ intros. congruence.
           ++ right. split_and!; [congruence|done|done|done].
           ++ intros _. specialize (Hv eq_refl). unfold detail_view_current in *.
              rewrite Htab, Hca.
              rewrite (current_stage_id_same w1 w2) by done. done.
      * split_and!; [done|intros Htw; split; [congruence|by apply Hl]|left; split; congruence|by apply Hv].
    + split_and!; [done|intros Htw; split; [congruence|by apply Hl]|left; split; congruence|done].
  - destruct (_completion_triggered w) eqn:Ht; simpl.
    + split_and!; [done|by intros|left; by split|done].
    + split_and!; [done|by intros|left; by split|done].
Qed.

End Frames.

(** ** Completion is final, and the timer *)

Section Final.
Context {rt : PyRuntime}.

Lemma step_completed (w : widget) (o : op) :
  _completion_triggered w = true →
  _completion_triggered (step w o) = true
  ∧ _status_label (step w o) = _status_label w
  ∧ occurrences EvBoardCompleted (trace (step w o))
    = occurrences EvBoardCompleted (trace w).
Proof.
  intros Ht. destruct o as [snapshot fs wd | row | |]; simpl.
  - destruct (refresh_snapshot_view w snapshot fs wd) as (_ & Hfrozen & _).
    destruct (Hfrozen Ht) as [Ht' Hl].
    destruct (refresh_snapshot_completion w snapshot fs wd)
      as [[[_ Hocc] | (Hfalse & _)] _]; [|congruence].
    split_and!; [done..|]. apply Hocc. by right.
  - unfold _handle_stage_selection.
    match goal with |- context [_update_detail_view ?x ?y] =>
      pose proof (update_detail_view_trace x y) as (-> & _ & ->);
      pose proof (update_detail_view_board x y) as (_ & _ & _ & -> & _) end.
    simpl. unfold select_row. destruct row as [r|]; [case_decide|]; by simpl.
  - pose proof (handle_completion_trace w) as H. rewrite Ht in H. by rewrite H.
  - unfold closeEvent, timer_stop, emit. simpl. split_and!; [done..|].
    rewrite occurrences_app.
    replace (occurrences EvBoardCompleted [EvTimerStop]) with 0 by reflexivity.
    lia.
Qed.

(** Completion is final.  Once completion has been triggered, no operation
    undoes it, changes the banner, or emits the completion signal again. *)
Theorem completion_is_final (w : widget) (ops : list op) :
  _completion_triggered w = true →
  _completion_triggered (run w ops) = true
  ∧ _status_label (run w ops) = _status_label w
  ∧ occurrences EvBoardCompleted (trace (run w ops))
    = occurrences EvBoardCompleted (trace w).
Proof.
  revert w. induction ops as [|o ops IH]; intros w Ht; simpl; [done|].
  destruct (step_completed w o Ht) as (Ht' & Hl & Hocc).
  destruct (IH (step w o) Ht') as (-> & -> & ->). done.
Qed.

Lemma step_timer (w : widget) (o : op) :
  match o with
  | OpClose =>
      _completion_triggered (step w o) = _completion_triggered w
      ∧ _timer_active (step w o) = false
  | _ =>
      (_completion_triggered (step w o) = _completion_triggered w
       ∧ _timer_active (step w o) = _timer_active w)
      ∨ (_completion_triggered w = false
         ∧ _completion_triggered (step w o) = true
         ∧ _timer_active (step w o) = false)
  end.
Proof.
  destruct o as [snapshot fs wd | row | |]; simpl.
  - destruct (refresh_snapshot_view w snapshot fs wd)
      as (_ & _ & [[? ?] | (? & ? & ? & _)] & _); [by left|by right].
  - left. unfold _handle_stage_selection.
    match goal with |- context [_update_detail_view ?x ?y] =>
      pose proof (update_detail_view_board x y) as (_ & _ & _ & -> & ->) end.
    simpl. unfold select_row. destruct row as [r|]; [case_decide|]; by simpl.
  - pose proof (handle_completion_trace w) as H.
    destruct (_completion_triggered w) eqn:Ht.
    + left. by rewrite H.
    + right. by destruct H as (? & ? & _).
  - done.
Qed.

(** The timer.  It runs from [__init__] on, and is stopped exactly when
    completion has been triggered or the window has been closed; once
    stopped, no operation starts it again. *)
Theorem timer_stopped_iff (defs : list (string * string)) (ops : list op) :
  (_timer_active (run (init defs) ops) = false
   ↔ _completion_triggered (run (init defs) ops) = true ∨ OpClose ∈ ops)
  ∧ (∀ w more, _timer_active w = false → _timer_active (run w more) = false).
Proof.
  split.
  - induction ops as [|o ops IH] using rev_ind.
    + simpl. destruct (init_fields defs) as (_ & _ & _ & -> & _).
      assert (_timer_active (init defs) = true) as ->.
      { unfold init. by destruct (build_items defs [] ∅). }
      split; [done|]. intros [? | H]; [done|by apply elem_of_nil in H].
    + unfold run in *. rewrite foldl_app. simpl.
      set (w := foldl step (init defs) ops) in *.
      rewrite elem_of_app, list_elem_of_singleton.
      pose proof (step_timer w o) as Hstep.
      destruct o as [snapshot fs wd | row | |];
        try (destruct Hstep as [[-> ->] | (Hf & -> & ->)];
             [rewrite IH; split;
                [intros [? | ?]; [by left|right; by left]
                |intros [? | [? | ?]]; [by left|by right|discriminate]]
             |split; [by left|done]]).
      destruct Hstep as [_ ->]. split; [|done]. intros _. right. by right.
  - intros w more. revert w. induction more as [|o more IH]; intros w Hw; simpl.
    + done.
    + apply IH. pose proof (step_timer w o) as Hstep.
      destruct o; try (destruct Hstep as [[_ ->] | (_ & _ & ->)]; done).
      by destruct Hstep as [_ ->].
Qed.

End Final.

(** ** The selection and the detail table *)

Section Selection.
Context {rt : PyRuntime}.

Lemma run_snoc (w : widget) (ops : list op) (o : op) :
  run w (ops ++ [o]) = step (run w ops) o.
Proof. unfold run. by rewrite foldl_app. Qed.

Lemma run_mirror (defs : list (string * string)) (ops : list op) :
  rows_mirror_definitions (run (init defs) ops).
Proof.
  induction ops as [|o ops IH] using rev_ind; [apply init_mirror|].
  rewrite run_snoc. by apply step_mirror.
Qed.

Lemma step_rows_data (w : widget) (o : op) :
  ∃ extra,
    item_data <$> _checklist (step w o) = (item_data <$> _checklist w) ++ extra.
Proof.
  pose proof (step_checklist w o) as H.
  destruct o as [[snap|] fs wd | row | |]; cbv beta iota zeta in H;
    destruct H as (Hc & _); try (exists []; by rewrite Hc, app_nil_r).
  destruct (update_from_snapshot_board w fs snap) as (Hc' & _).
  exists (untracked w (snapshot_stages snap)).*1.
  by rewrite Hc, <- Hc', update_from_snapshot_rows_data.
Qed.

Lemma step_selection (w : widget) (o : op) :
  match o with
  | OpSelectRow row =>
      _checklist_selection (step w o)
      = match row with
        | Some r => if decide (r < length (_checklist w)) then Some r else None
        | None => None
        end
  | _ => _checklist_selection (step w o) = _checklist_selection w
  end.
Proof.
  destruct o as [snapshot fs wd | row | |]; simpl.
  - by destruct (refresh_snapshot_view w snapshot fs wd) as (-> & _).
  - unfold _handle_stage_selection.
    match goal with |- context [_update_detail_view ?x ?y] =>
      pose proof (update_detail_view_table x y) as (_ & -> & _) end.
    simpl. unfold select_row. destruct row as [r|]; [case_decide|]; by simpl.
  - by destruct (handle_completion_view w) as (-> & _).
  - done.
Qed.

Lemma step_selection_valid (w : widget) (o : op) :
  selection_valid w → selection_valid (step w o).
Proof.
  intros Hvalid. unfold selection_valid in *.
  pose proof (step_selection w o) as Hsel.
  destruct (step_rows_data w o) as [extra Hdata].
  assert (length (_checklist w) ≤ length (_checklist (step w o))) as Hlen.
  { rewrite <- !(length_fmap item_data), Hdata, length_app. lia. }
  destruct o as [snapshot fs wd | row | |]; rewrite Hsel;
    try (destruct (_checklist_selection w); [lia|done]).
  destruct row as [r|]; [|done]. case_decide; [lia|done].
Qed.

Lemma run_selection_valid (defs : list (string * string)) (ops : list op) :
  selection_valid (run (init defs) ops).
Proof.
  induction ops as [|o ops IH] using rev_ind.
  - unfold selection_valid, init. simpl.
    destruct (build_items defs [] ∅) as [[|it rows] items]; simpl; [done|lia].
  - rewrite run_snoc. by apply step_selection_valid.
Qed.

Lemma step_current_stage_id (w : widget) (o : op) :
  selection_valid w →
  match o with
  | OpSelectRow row =>
      _current_stage_id (step w o)
      = match row with
        | Some r => item_data <$> (_checklist w !! r)
        | None => None
        end
  | _ => _current_stage_id (step w o) = _current_stage_id w
  end.
Proof.
  intros Hvalid. unfold selection_valid in Hvalid.
  pose proof (step_selection w o) as Hsel.
  destruct (step_rows_data w o) as [extra Hdata].
  assert (∀ r, r < length (_checklist w) →
            item_data <$> (_checklist (step w o) !! r)
            = item_data <$> (_checklist w !! r)) as Hrow.
  { intros r Hr. rewrite <- !list_lookup_fmap, Hdata.
    apply lookup_app_l. by rewrite length_fmap. }
  unfold _current_stage_id.
  destruct o as [snapshot fs wd | row | |]; rewrite Hsel;
    try (destruct (_checklist_selection w) as [r|]; [by apply Hrow|done]).
  destruct row as [r|]; [|done].
  case_decide as Hr; [by apply Hrow|].
  symmetry. rewrite fmap_None. apply lookup_ge_None. lia.
Qed.

(** Polls keep the selection.  On a widget built by [__init__] and driven
    by any operations, a poll, the completion handler and the closing of
    the window leave the selected stage as it is; selecting a row selects
    the stage of the stage definition at that place, and selecting none, or
    a row that is not there, leaves no stage selected. *)
Theorem polls_keep_selection (defs : list (string * string)) (ops : list op) :
  let w := run (init defs) ops in
  (∀ snapshot fs worker_done,
     _current_stage_id (step w (OpRefreshSnapshot snapshot fs worker_done))
     = _current_stage_id w)
  ∧ _current_stage_id (step w OpHandleCompletion) = _current_stage_id w
  ∧ _current_stage_id (step w OpClose) = _current_stage_id w
  ∧ (∀ r, _current_stage_id (step w (OpSelectRow (Some r)))
          = fst <$> (_stage_definitions w !! r))
  ∧ _current_stage_id (step w (OpSelectRow None)) = None.
Proof.
  intros w. pose proof (run_selection_valid defs ops) as Hvalid. fold w in Hvalid.
  split_and!.
  - intros snapshot fs wd.
    apply (step_current_stage_id w (OpRefreshSnapshot snapshot fs wd) Hvalid).
  - apply (step_current_stage_id w OpHandleCompletion Hvalid).
  - apply (step_current_stage_id w OpClose Hvalid).
  - intros r. rewrite (step_current_stage_id w (OpSelectRow (Some r)) Hvalid).
    destruct (run_mirror defs ops) as [Hrows _]. fold w in Hrows.
    by rewrite <- !list_lookup_fmap, Hrows.
  - apply (step_current_stage_id w (OpSelectRow None) Hvalid).
Qed.

Lemma step_detail_view (w : widget) (o : op) :
  match o with
  | OpRefreshSnapshot (Some snap) fs worker_done =>
      (_refresh_snapshot w (Some snap) fs worker_done).2 = Returned tt →
      detail_view_current (step w o)
  | OpSelectRow _ => detail_view_current (step w o)
  | _ => detail_view_current w → detail_view_current (step w o)
  end.
Proof.
  destruct o as [[snap|] fs wd | row | |]; simpl.
  - by destruct (refresh_snapshot_view w (Some snap) fs wd) as (_ & _ & _ & Hv).
  - by destruct (refresh_snapshot_view w None fs wd) as (_ & _ & _ & Hv).
  - unfold _handle_stage_selection, detail_view_current.
    match goal with |- context [_update_detail_view ?x ?y] =>
      pose proof (update_detail_view_table x y) as (Htable & Hs & _);
      pose proof (update_detail_view_trace x y) as (_ & Hcache & _);
      pose proof (update_detail_view_board x y) as (Hc & _);
      rewrite Htable, Hcache;
      rewrite (current_stage_id_same x (_update_detail_view x y)) by done
    end.
    done.
  - unfold detail_view_current.
    destruct (handle_completion_view w) as (Hs & -> & -> & _).
    destruct (handle_completion_checklist w) as (Hc & _).
    by rewrite (current_stage_id_same w (_handle_completion w)).
  - done.
Qed.

(** The detail table is current.  After [__init__], after every change of
    the selection and after every poll with a snapshot that returns, the
    table holds one row for each cached entry of the selected stage, and no
    row when no stage is selected or the selected stage has no cached
    index; the other operations keep it so.  Hence it is current after any
    operations whose polls all return. *)
Theorem detail_table_current (defs : list (string * string)) :
  detail_view_current (init defs)
  ∧ (∀ w row, detail_view_current (step w (OpSelectRow row)))
  ∧ (∀ w snap fs worker_done,
       (_refresh_snapshot w (Some snap) fs worker_done).2 = Returned tt →
       detail_view_current (step w (OpRefreshSnapshot (Some snap) fs worker_done)))
  ∧ (∀ w, detail_view_current w →
       (∀ fs worker_done,
          detail_view_current (step w (OpRefreshSnapshot None fs worker_done)))
       ∧ detail_view_current (step w OpHandleCompletion)
       ∧ detail_view_current (step w OpClose))
  ∧ (∀ ops, polls_return (init defs) ops →
       detail_view_current (run (init defs) ops))
  ∧ (∀ w, detail_view_current w →
       length (_detail_table w)
       = match _current_stage_id w ≫= (fun sid => _repo_index_cache w !! sid) with
         | Some cache_entry => length (CacheEntry.entries cache_entry)
         | None => 0
         end).
Proof.
  assert (Hinit : detail_view_current (init defs)).
  { unfold detail_view_current, detail_rows_for, init.
    destruct (build_items defs [] ∅) as [rows items]. simpl.
    destruct (_current_stage_id _); [by rewrite lookup_empty|done]. }
  split_and!.
  - done.
  - intros w row. apply (step_detail_view w (OpSelectRow row)).
  - intros w snap fs wd. apply (step_detail_view w (OpRefreshSnapshot (Some snap) fs wd)).
  - intros w Hw. split_and!.
    + intros fs wd. by apply (step_detail_view w (OpRefreshSnapshot None fs wd)).
    + by apply (step_detail_view w OpHandleCompletion).
    + by apply (step_detail_view w OpClose).
  - intros ops. generalize Hinit. generalize (init defs).
    induction ops as [|o ops IH]; intros w Hw Hret; [done|].
    destruct Hret as [Ho Hret]. simpl. apply IH; [|done].
    pose proof (step_detail_view w o) as Hstep.
    destruct o as [[snap|] fs wd | row | |]; by apply Hstep.
  - intros w Hw. rewrite Hw. unfold detail_rows_for.
    destruct (_current_stage_id w) as [sid|]; simpl; [|done].
    destruct (_repo_index_cache w !! sid); [by rewrite length_fmap|done].
Qed.

End Selection.

(** ** Pruning *)

(** Pruning keeps exactly the observed stages.  The cache after pruning is
    the cache restricted to the observed ids: entries are neither changed
    nor added, and pruning again with the same ids changes nothing. *)
Theorem prune_keeps_observed (cache : gmap string CacheEntry.t)
    (observed_ids : gset string) :
  _prune_stale_repo_cache cache observed_ids
  = filter (fun entry => entry.1 ∈ observed_ids) cache
  ∧ _prune_stale_repo_cache cache observed_ids ⊆ cache
  ∧ _prune_stale_repo_cache (_prune_stale_repo_cache cache observed_ids) observed_ids
    = _prune_stale_repo_cache cache observed_ids
  ∧ (dom cache ⊆ observed_ids →
     _prune_stale_repo_cache cache observed_ids = cache).
Proof.
  assert (Hfilter : ∀ c : gmap string CacheEntry.t,
            _prune_stale_repo_cache c observed_ids
            = filter (fun entry => entry.1 ∈ observed_ids) c).
  { intros c. apply map_eq. intros id.
    rewrite prune_stale_repo_cache_lookup, map_lookup_filter.
    destruct (c !! id) as [entry|]; simpl; [|by case_decide].
    case_decide; [by rewrite option_guard_True|by rewrite option_guard_False]. }
  split_and!.
  - apply Hfilter.
  - rewrite Hfilter. apply map_filter_subseteq.
  - apply map_eq. intros id. rewrite !prune_stale_repo_cache_lookup.
    by case_decide.
  - intros Hdom. apply map_eq. intros id. rewrite prune_stale_repo_cache_lookup.
    case_decide as Hobs; [done|].
    destruct (cache !! id) as [entry|] eqn:Hid; [|done].
    destruct Hobs. apply Hdom, elem_of_dom. by eexists.
Qed.

(** ** Normalized entries *)

Section Normal.
Context {rt : PyRuntime}.

Lemma normalize_repo_entry_skips (entry : json) (entries_dir : string) :
  is_object entry = false → _normalize_repo_entry entry entries_dir = Returned None.
Proof. by destruct entry. Qed.

Lemma normalize_repo_entry_object (entry : json) (entries_dir : string) :
  is_object entry = true → _normalize_repo_entry entry entries_dir ≠ Returned None.
Proof.
  destruct entry; try done. intros _. simpl.
  by destruct (resolve_detail_path _ _).
Qed.

Lemma normalize_loop_returns (l : list json) (entries_dir : string)
    (normalized_entries new : list RepoEntry.t) :
  Forall2 (fun obj normalized =>
             _normalize_repo_entry obj entries_dir = Returned (Some normalized))
          (filter (fun entry => is_object entry = true) l) new →
  normalize_loop l entries_dir normalized_entries
  = Returned (normalized_entries ++ new).
Proof.
  revert normalized_entries new.
  induction l as [|v l IH]; intros acc new Hall.
  - rewrite filter_nil in Hall. apply Forall2_nil_inv_l in Hall as ->.
    simpl. by rewrite app_nil_r.
  - rewrite filter_cons in Hall. cbn [normalize_loop].
    destruct (is_object v) eqn:Hv.
    + rewrite decide_True in Hall by done.
      apply Forall2_cons_inv_l in Hall as (n & new' & Hn & Hrest & ->).
      rewrite Hn, (IH _ new' Hrest). by rewrite <- app_assoc.
    + rewrite decide_False in Hall by done.
      rewrite normalize_repo_entry_skips by done. by apply IH.
Qed.

Lemma normalize_loop_returned (l : list json) (entries_dir : string)
    (normalized_entries entries : list RepoEntry.t) :
  normalize_loop l entries_dir normalized_entries = Returned entries →
  ∃ new, entries = normalized_entries ++ new
    ∧ Forall2 (fun obj normalized =>
                 _normalize_repo_entry obj entries_dir = Returned (Some normalized))
              (filter (fun entry => is_object entry = true) l) new.
Proof.
  revert normalized_entries entries.
  induction l as [|v l IH]; intros acc entries; cbn [normalize_loop].
  - intros [= <-]. exists []. split; [by rewrite app_nil_r|constructor].
  - rewrite filter_cons. destruct (is_object v) eqn:Hv.
    + rewrite decide_True by done.
      pose proof (normalize_repo_entry_object v entries_dir Hv) as Hobj.
      destruct (_normalize_repo_entry v entries_dir) as [[n|]|e] eqn:Hn; [|done..].
      intros Hloop. destruct (IH _ _ Hloop) as (new & -> & Hall).
      exists (n :: new). split; [by rewrite <- app_assoc|by constructor].
    + rewrite decide_False by done.
      rewrite normalize_repo_entry_skips by done. apply IH.
Qed.

Lemma normalize_loop_raised (l : list json) (entries_dir : string)
    (normalized_entries : list RepoEntry.t) (e : exn) :
  normalize_loop l entries_dir normalized_entries = Raised e ↔
  ∃ before obj after,
    filter (fun entry => is_object entry = true) l = before ++ obj :: after
    ∧ Forall (fun o => ∃ normalized,
                _normalize_repo_entry o entries_dir = Returned (Some normalized))
             before
    ∧ _normalize_repo_entry obj entries_dir = Raised e.
Proof.
  revert normalized_entries.
  induction l as [|v l IH]; intros acc; cbn [normalize_loop].
  - split; [done|]. intros (before & obj & after & Hl & _).
    rewrite filter_nil in Hl. by destruct before.
  - rewrite filter_cons. destruct (is_object v) eqn:Hv.
    + rewrite decide_True by done.
      pose proof (normalize_repo_entry_object v entries_dir Hv) as Hobj.
      destruct (_normalize_repo_entry v entries_dir) as [[n|]|e'] eqn:Hn; [|done|].
      * rewrite IH. split.
        -- intros (before & obj & after & -> & Hbefore & Hraised).
           exists (v :: before), obj, after. split_and!; [done| |done].
           constructor; [by exists n|done].
        -- intros (before & obj & after & Hl & Hbefore & Hraised).
           destruct before as [|v' before]; simpl in Hl; injection Hl as -> Hl.
           ++ congruence.
           ++ exists before, obj, after. split_and!; [done| |done].
              by apply Forall_cons in Hbefore as [_ ?].
      * split.
        -- intros [= ->]. by exists [], v, (filter (fun entry => is_object entry = true) l).
        -- intros (before & obj & after & Hl & Hbefore & Hraised).
           destruct before as [|v' before]; simpl in Hl; injection Hl as -> Hl.
           ++ congruence.
           ++ apply Forall_cons in Hbefore as [[n Hn'] _]. congruence.
    + rewrite decide_False by done.
      rewrite normalize_repo_entry_skips by done. apply IH.
Qed.

(** Entries that are not objects are skipped, and an object is never
    skipped.  A value that is not a list gives no entries.  For a list,
    normalizing returns exactly when normalizing each of its objects
    returns, and then gives their entries, one for each object, in order;
    it raises exactly when normalizing one of its objects raises, with the
    exception of the first that does. *)
Theorem normalize_repo_entries_objects (entries_payload : json)
    (entries_dir : string) :
  let objects :=
    match entries_payload with
    | JArr l => filter (fun entry => is_object entry = true) l
    | _ => []
    end in
  (∀ entries,
     _normalize_repo_entries entries_payload entries_dir = Returned entries ↔
     Forall2 (fun obj normalized =>
                _normalize_repo_entry obj entries_dir = Returned (Some normalized))
             objects entries)
  ∧ (∀ entries,
       _normalize_repo_entries entries_payload entries_dir = Returned entries →
       length entries = length objects)
  ∧ (∀ e,
       _normalize_repo_entries entries_payload entries_dir = Raised e ↔
       ∃ before obj after,
         objects = before ++ obj :: after
         ∧ Forall (fun o => ∃ normalized,
                     _normalize_repo_entry o entries_dir = Returned (Some normalized))
                  before
         ∧ _normalize_repo_entry obj entries_dir = Raised e)
  ∧ (∀ obj, obj ∈ objects →
       _normalize_repo_entry obj entries_dir ≠ Returned None).
Proof.
  intros objects.
  assert (Hreturned : ∀ entries,
    _normalize_repo_entries entries_payload entries_dir = Returned entries ↔
    Forall2 (fun obj normalized =>
               _normalize_repo_entry obj entries_dir = Returned (Some normalized))
            objects entries).
  { intros entries. subst objects.
    destruct entries_payload as [| | | | |l|];
      try (simpl; split; [by intros [= <-]; constructor
                         |by intros ->%Forall2_nil_inv_l]).
    simpl. split.
    - intros Hloop. by destruct (normalize_loop_returned _ _ _ _ Hloop) as (new & -> & ?).
    - intros Hall. by rewrite (normalize_loop_returns l entries_dir [] entries Hall). }
  split_and!.
  - done.
  - intros entries Hret. apply Hreturned in Hret. symmetry.
    by apply (Forall2_length _ _ _ Hret).
  - intros e. subst objects.
    destruct entries_payload as [| | | | |l|];
      try (simpl; split; [done|by intros ([] & ? & ? & ? & _)]).
    apply normalize_loop_raised.
  - intros obj Hobj. apply normalize_repo_entry_object. subst objects.
    destruct entries_payload as [| | | | |l|]; try by apply elem_of_nil in Hobj.
    by apply list_elem_of_filter in Hobj as [? _].
Qed.

Lemma normalized_messages_normal (messages_raw : json) :
  Forall (fun m => m ≠ "" ∧ PyStr.strip m = m) (_normalized_messages messages_raw).
Proof.
  destruct messages_raw as [| | | |s|l|]; try by constructor.
  - simpl. destruct (PyStr.truthy (PyStr.strip s)) eqn:Hs; [|constructor].
    apply Forall_singleton. split; [by apply truthy_true|apply strip_idem].
  - rewrite normalized_messages_list. apply Forall_forall. intros m Hm.
    apply list_elem_of_filter in Hm as [Hne Hm].
    apply list_elem_of_fmap in Hm as (v & -> & _).
    split; [done|apply strip_idem].
Qed.

Lemma normalize_repo_entry_normal (entry : json) (entries_dir : string)
    (normalized : RepoEntry.t) :
  (∀ v, json_truthy v = true → str_of_value v ≠ "") →
  _normalize_repo_entry entry entries_dir = Returned (Some normalized) →
  entry_normal normalized.
Proof.
  intros Hstr. destruct entry; try done. simpl.
  destruct (resolve_detail_path _ _) as [detail_path|e]; [|done].
  intros [= <-].
  unfold entry_normal. simpl. split_and!.
  - unfold str_or at 1.
    destruct (json_truthy (py_get "display_name" fields)) eqn:Hd.
    + by apply py_str_nonempty.
    + destruct (PyStr.truthy _) eqn:Hr; [by apply truthy_true|done].
  - unfold str_or.
    destruct (json_truthy (py_get "status" fields)) eqn:Hs; [|done].
    by apply py_str_nonempty.
  - apply normalized_messages_normal.
Qed.

Lemma normalize_repo_entries_normal (entries_payload : json)
    (entries_dir : string) (entries : list RepoEntry.t) :
  (∀ v, json_truthy v = true → str_of_value v ≠ "") →
  _normalize_repo_entries entries_payload entries_dir = Returned entries →
  Forall entry_normal entries.
Proof.
  intros Hstr.
  destruct entries_payload as [| | | | |l|]; try by (intros [= <-]; constructor).
  simpl. intros Hloop.
  destruct (normalize_loop_returned _ _ _ _ Hloop) as (new & -> & Hall).
  simpl. clear Hloop.
  induction Hall as [|obj n objs new Hn _ IH]; constructor; [|done].
  by apply (normalize_repo_entry_normal obj entries_dir).
Qed.

Lemma load_repo_index_payload_normal (cache : gmap string CacheEntry.t)
    (fs : filesystem) (stage_id : string) (metadata : list (string * json))
    (cache_entry : CacheEntry.t) :
  (∀ v, json_truthy v = true → str_of_value v ≠ "") →
  cache_normal cache →
  (_load_repo_index_payload cache fs stage_id metadata).2
  = Returned (Some cache_entry) →
  Forall entry_normal (CacheEntry.entries cache_entry).
Proof.
  intros Hstr Hcache. unfold _load_repo_index_payload.
  destruct (negb _); [done|].
  destruct (_safe_stat fs _) as [[mtime|]|e]; [|done..].
  assert (Hread : ∀ cache_entry' : CacheEntry.t,
    (match _read_json_payload fs (py_str (py_get "repo_progress_index_path" metadata))
     with
     | Returned (Some (JObj payload)) =>
         match _normalize_repo_entries (py_get "entries" payload)
                 (str_or (py_get "entries_dir" payload)
                    (path_parent (py_str (py_get "repo_progress_index_path" metadata))))
         with
         | Returned entries =>
             ([EvStat (py_str (py_get "repo_progress_index_path" metadata));
               EvRead (py_str (py_get "repo_progress_index_path" metadata))],
              Returned (Some (CacheEntry.Make
                                (py_str (py_get "repo_progress_index_path" metadata))
                                mtime entries)))
         | Raised e =>
             ([EvStat (py_str (py_get "repo_progress_index_path" metadata));
               EvRead (py_str (py_get "repo_progress_index_path" metadata))],
              Raised e)
         end
     | Returned (Some JNull) | Returned None =>
         ([EvStat (py_str (py_get "repo_progress_index_path" metadata));
           EvRead (py_str (py_get "repo_progress_index_path" metadata))],
          Returned None)
     | Returned (Some _) =>
         ([EvStat (py_str (py_get "repo_progress_index_path" metadata));
           EvRead (py_str (py_get "repo_progress_index_path" metadata))],
          Raised AttributeError)
     | Raised e =>
         ([EvStat (py_str (py_get "repo_progress_index_path" metadata));
           EvRead (py_str (py_get "repo_progress_index_path" metadata))],
          Raised e)
     end).2 = Returned (Some cache_entry') →
    Forall entry_normal (CacheEntry.entries cache_entry')).
  { intros ce.
    destruct (_read_json_payload fs _) as [[[| | | | | |payload]|]|e]; try done.
    destruct (_normalize_repo_entries _ _) as [entries|e] eqn:Hentries; [|done].
    intros [= <-]. simpl.
    by apply (normalize_repo_entries_normal _ _ _ Hstr Hentries). }
  destruct (cache !! stage_id) as [cached|] eqn:Hcached;
    [destruct (Z.eqb _ _)|]; simpl.
  - intros [= <-]. by apply (Hcache stage_id).
  - apply Hread.
  - apply Hread.
Qed.

Lemma refresh_loop_normal (fs : filesystem) (stages : list (string * Stage.t))
    (cache : gmap string CacheEntry.t) (observed : gset string) (tr : list event) :
  (∀ v, json_truthy v = true → str_of_value v ≠ "") →
  cache_normal cache →
  cache_normal (refresh_loop fs stages cache observed tr).1.1.
Proof.
  intros Hstr. revert cache observed tr.
  induction stages as [|[stage_id stage] rest IH]; intros cache observed tr Hcache;
    simpl; [done|].
  pose proof (load_repo_index_payload_normal cache fs stage_id
                (default [] (Stage.metadata stage))) as Hload.
  destruct (_load_repo_index_payload cache fs stage_id _) as [ops [[entry|]|e]];
    simpl in *; [| |done].
  - apply IH. intros id ce.
    destruct (decide (stage_id = id)) as [<- | Hne].
    + rewrite lookup_insert_eq. intros [= <-]. by apply Hload.
    + rewrite lookup_insert_ne by done. apply Hcache.
  - apply IH. intros id ce.
    destruct (decide (stage_id = id)) as [<- | Hne].
    + by rewrite lookup_delete_eq.
    + rewrite lookup_delete_ne by done. apply Hcache.
Qed.

Lemma refresh_stage_repo_details_normal (w : widget) (fs : filesystem)
    (stages : list (string * Stage.t)) :
  (∀ v, json_truthy v = true → str_of_value v ≠ "") →
  cache_normal (_repo_index_cache w) →
  cache_normal (_repo_index_cache (_refresh_stage_repo_details w fs stages).1).
Proof.
  intros Hstr Hcache. unfold _refresh_stage_repo_details.
  pose proof (refresh_loop_normal fs stages (_repo_index_cache w) ∅ (trace w)
                Hstr Hcache) as Hloop.
  destruct (refresh_loop _ _ _ _ _) as [[cache tr] [observed|e]]; simpl in *;
    [|done].
  intros id ce. rewrite prune_stale_repo_cache_lookup.
  case_decide; [apply Hloop|done].
Qed.

Lemma update_from_snapshot_cache (w : widget) (fs : filesystem)
    (snapshot : Snapshot.t) :
  _repo_index_cache (_update_from_snapshot w fs snapshot).1
  = _repo_index_cache
      (_refresh_stage_repo_details (merge_stages w (snapshot_stages snapshot)).1
         fs (snapshot_stages snapshot)).1.
Proof.
  unfold _update_from_snapshot.
  destruct (merge_stages w (snapshot_stages snapshot)) as [w1 all_done]. simpl.
  destruct (_refresh_stage_repo_details w1 fs (snapshot_stages snapshot))
    as [w2 [[]|e]]; simpl; [|done].
  pose proof (update_detail_view_trace w2 (_current_stage_id w2)) as (_ & Hc & _).
  rewrite <- Hc. by repeat case_match.
Qed.

Lemma step_cache_normal (w : widget) (o : op) :
  (∀ v, json_truthy v = true → str_of_value v ≠ "") →
  cache_normal (_repo_index_cache w) →
  cache_normal (_repo_index_cache (step w o)).
Proof.
  intros Hstr Hcache. destruct o as [[snap|] fs wd | row | |]; simpl.
  - assert (cache_normal (_repo_index_cache (_update_from_snapshot w fs snap).1))
      as Hupd.
    { rewrite update_from_snapshot_cache.
      apply refresh_stage_repo_details_normal; [done|].
      by destruct (merge_stages_triggered w (snapshot_stages snap)) as (_ & _ & -> & _). }
    unfold _refresh_snapshot.
    destruct (_update_from_snapshot w fs snap) as [w1 [[]|e]]; simpl in *; [|done].
    destruct (wd && negb (_completion_triggered w1)); simpl; [|done].
    by match goal with |- context [_handle_completion ?x] =>
      destruct (handle_completion_view x) as (_ & _ & -> & _) end.
  - unfold _refresh_snapshot. by destruct (_completion_triggered w).
  - unfold _handle_stage_selection.
    match goal with |- context [_update_detail_view ?x ?y] =>
      pose proof (update_detail_view_trace x y) as (_ & -> & _) end.
    simpl. unfold select_row. destruct row as [r|]; [case_decide|]; by simpl.
  - by destruct (handle_completion_view w) as (_ & _ & -> & _).
  - done.
Qed.

Lemma detail_row_of_normal (entry : RepoEntry.t) :
  entry_normal entry →
  detail_row_of entry
  = DetailRow (RepoEntry.display_name entry) (RepoEntry.status entry)
      (RepoEntry.updated_at entry)
      (PyStr.join " | " (RepoEntry.messages entry))
      (col_messages_tooltip (detail_row_of entry)).
Proof.
  intros (Hd & Hs & Hm). unfold detail_row_of. simpl.
  apply truthy_true in Hd as ->. apply truthy_true in Hs as ->.
  f_equal. f_equal.
  induction Hm as [|m ms [Hne Hstrip] _ IH]; [done|].
  rewrite filter_cons, decide_True, IH; [done|].
  rewrite Hstrip. by apply truthy_true.
Qed.

(** What is cached is normalized.  With a [str] that gives truthy values a
    text that is not empty, every entry the cache ever holds has a display
    name and a status that are not empty and messages that are trimmed and
    not blank; so its row in the table shows exactly its display name, its
    status, its update time and all its messages joined by " | ", and none
    of the fallbacks of the table applies. *)
Theorem cached_entries_normal (defs : list (string * string)) (ops : list op) :
  (∀ v, json_truthy v = true → str_of_value v ≠ "") →
  let w := run (init defs) ops in
  cache_normal (_repo_index_cache w)
  ∧ (∀ id cache_entry entry,
       _repo_index_cache w !! id = Some cache_entry →
       entry ∈ CacheEntry.entries cache_entry →
       col_repository (detail_row_of entry) = RepoEntry.display_name entry
       ∧ col_status (detail_row_of entry) = RepoEntry.status entry
       ∧ col_updated (detail_row_of entry) = RepoEntry.updated_at entry
       ∧ col_messages (detail_row_of entry)
         = PyStr.join " | " (RepoEntry.messages entry)
       ∧ col_repository (detail_row_of entry) ≠ ""
       ∧ col_status (detail_row_of entry) ≠ "").
Proof.
  intros Hstr w.
  assert (cache_normal (_repo_index_cache w)) as Hnormal.
  { subst w. induction ops as [|o ops IH] using rev_ind.
    - unfold init.
      destruct (build_items defs [] ∅). simpl. intros id ce.
      by rewrite lookup_empty.
    - unfold run in *. rewrite foldl_app. simpl. by apply step_cache_normal. }
  split; [done|].
  intros id ce entry Hid Hentry.
  assert (entry_normal entry) as Hn.
  { specialize (Hnormal id ce Hid). rewrite Forall_forall in Hnormal.
    by apply Hnormal. }
  rewrite (detail_row_of_normal entry Hn). simpl.
  destruct Hn as (? & ? & _). done.
Qed.

End Normal.

(** ** Missing index files, and refreshing again *)

Section Again.
Context {rt : PyRuntime}.

Lemma load_repo_index_payload_missing (cache : gmap string CacheEntry.t)
    (fs : filesystem) (stage_id : string) (stage : Stage.t) :
  index_missing fs stage →
  let loaded :=
    _load_repo_index_payload cache fs stage_id (default [] (Stage.metadata stage)) in
  loaded.2 = Returned None ∧ ∀ p, EvRead p ∉ loaded.1.
Proof.
  unfold index_missing, _load_repo_index_payload, _safe_stat. simpl.
  intros [Hfalsy | Hstat].
  - rewrite Hfalsy. simpl. split; [done|]. intros p. apply not_elem_of_nil.
  - destruct (negb _); simpl.
    + split; [done|]. intros p. apply not_elem_of_nil.
    + rewrite Hstat. simpl. split; [done|]. intros p.
      by intros ?%list_elem_of_singleton.
Qed.

(** A missing index file clears the stage's entry.  When a stage names no
    index file, or one whose stat fails with [OSError], loading returns no
    data without reading any file, whatever is cached; and a refresh that
    reaches the stage leaves no cache entry for it, however the refresh
    ends.  A stat that fails with an exception [_safe_stat] does not catch
    is another matter: the load raises it without reading, the refresh
    stops there, and what was cached for the stage stays. *)
Theorem missing_index_clears_entry (w : widget) (fs : filesystem)
    (before after : list (string * Stage.t)) (stage_id : string) (stage : Stage.t) :
  let stages := before ++ (stage_id, stage) :: after in
  let index_path_obj :=
    py_get "repo_progress_index_path" (default [] (Stage.metadata stage)) in
  NoDup stages.*1 →
  (_refresh_stage_repo_details w fs before).2 = Returned tt →
  let loaded :=
    _load_repo_index_payload (_repo_index_cache w) fs stage_id
      (default [] (Stage.metadata stage)) in
  let refreshed := _refresh_stage_repo_details w fs stages in
  (index_missing fs stage →
   loaded.2 = Returned None
   ∧ (∀ p, EvRead p ∉ loaded.1)
   ∧ _repo_index_cache refreshed.1 !! stage_id = None)
  ∧ (∀ e, json_truthy index_path_obj = true →
       fs (py_str index_path_obj) = Uncaught e →
       loaded = ([EvStat (py_str index_path_obj)], Raised e)
       ∧ refreshed.2 = Raised e
       ∧ _repo_index_cache refreshed.1 !! stage_id
         = _repo_index_cache w !! stage_id).
Proof.
  intros stages index_path_obj Hnodup Hbefore loaded refreshed.
  pose proof (refresh_stage_repo_details_at w fs before after stage_id stage
                Hnodup Hbefore) as Hat.
  fold loaded stages refreshed in Hat.
  split.
  - intros Hmissing.
    destruct (load_repo_index_payload_missing (_repo_index_cache w) fs stage_id
                stage Hmissing) as [Hnone Hreads].
    fold loaded in Hnone, Hreads. split_and!; [done..|].
    by rewrite Hnone in Hat.
  - intros e Htruthy Hstat.
    assert (loaded = ([EvStat (py_str index_path_obj)], Raised e)) as Hloaded
      by by apply load_repo_index_payload_stat_raises.
    split; [done|]. by rewrite Hloaded in Hat.
Qed.

(** Loading again, with the cache holding what the first load returned,
    returns the same. *)
Lemma load_repo_index_payload_again (cache cache' : gmap string CacheEntry.t)
    (fs : filesystem) (stage_id : string) (metadata : list (string * json))
    (loaded : option CacheEntry.t) :
  (_load_repo_index_payload cache fs stage_id metadata).2 = Returned loaded →
  cache' !! stage_id = loaded →
  (_load_repo_index_payload cache' fs stage_id metadata).2 = Returned loaded.
Proof.
  unfold _load_repo_index_payload, _safe_stat, _read_json_payload.
  destruct (negb _); simpl; [by intros [= <-] _|].
  destruct (fs _) as [f| |e] eqn:Hf; simpl; [|by intros [= <-] _|done].
  intros Hfirst Hcache'. rewrite Hcache'.
  destruct (cache !! stage_id) as [cached|] eqn:Hcached.
  - destruct (Z.eqb (CacheEntry.mtime cached) (st_mtime f)) eqn:Hm.
    + simpl in Hfirst. injection Hfirst as <-. by rewrite Hm.
    + simpl in Hfirst.
      destruct (decoded f) as [[| | | | | |payload]| |e];
        simpl in Hfirst; try done; try (by injection Hfirst as <-).
      destruct (_normalize_repo_entries _ _) as [entries|e]; simpl in Hfirst; [|done].
      injection Hfirst as <-. simpl. by rewrite Z.eqb_refl.
  - simpl in Hfirst.
    destruct (decoded f) as [[| | | | | |payload]| |e];
      simpl in Hfirst; try done; try (by injection Hfirst as <-).
    destruct (_normalize_repo_entries _ _) as [entries|e]; simpl in Hfirst; [|done].
    injection Hfirst as <-. simpl. by rewrite Z.eqb_refl.
Qed.

Lemma refresh_loop_loads (fs : filesystem) (stages : list (string * Stage.t))
    (cache cache' : gmap string CacheEntry.t) (observed observed' : gset string)
    (tr tr' : list event) :
  NoDup stages.*1 →
  refresh_loop fs stages cache observed tr = (cache', tr', Returned observed') →
  ∀ id stage, (id, stage) ∈ stages →
    (_load_repo_index_payload cache fs id (default [] (Stage.metadata stage))).2
    = Returned (cache' !! id).
Proof.
  revert cache observed tr.
  induction stages as [|[stage_id stage] rest IH];
    intros cache observed tr Hnodup Hloop id stage0 Hin.
  - by apply elem_of_nil in Hin.
  - apply NoDup_cons in Hnodup as [Hfresh Hnodup]. simpl in Hloop.
    destruct (_load_repo_index_payload cache fs stage_id _) as [ops res] eqn:Hload.
    destruct res as [loaded|e]; [|done].
    set (cache1 := match loaded with
                   | Some entry => <[stage_id := entry]> cache
                   | None => delete stage_id cache
                   end).
    assert (refresh_loop fs rest cache1 (observed ∪ {[stage_id]}) (tr ++ ops)
            = (cache', tr', Returned observed')) as Hrest.
    { subst cache1. by destruct loaded. }
    destruct (refresh_loop_returned _ _ _ _ _ _ _ _ Hrest) as (_ & Hframe & _).
    apply elem_of_cons in Hin as [[= -> ->] | Hin].
    + rewrite Hload. simpl. f_equal. rewrite Hframe by done.
      subst cache1. destruct loaded.
      * by rewrite lookup_insert_eq.
      * by rewrite lookup_delete_eq.
    + assert (id ≠ stage_id) as Hne.
      { intros ->. apply Hfresh. apply list_elem_of_fmap. by exists (stage_id, stage0). }
      rewrite <- (IH _ _ _ Hnodup Hrest id stage0 Hin).
      f_equal. apply load_repo_index_payload_cache.
      subst cache1. destruct loaded.
      * by rewrite lookup_insert_ne.
      * by rewrite lookup_delete_ne.
Qed.

Lemma refresh_loop_stable (fs : filesystem) (stages : list (string * Stage.t))
    (cache : gmap string CacheEntry.t) (observed : gset string) (tr : list event) :
  (∀ id stage, (id, stage) ∈ stages →
     (_load_repo_index_payload cache fs id (default [] (Stage.metadata stage))).2
     = Returned (cache !! id)) →
  ∃ tr', refresh_loop fs stages cache observed tr
         = (cache, tr', Returned (observed ∪ list_to_set stages.*1)).
Proof.
  revert observed tr.
  induction stages as [|[stage_id stage] rest IH]; intros observed tr Hloads; simpl.
  - exists tr. do 2 f_equal. set_solver.
  - pose proof (Hloads stage_id stage) as Hload.
    destruct (_load_repo_index_payload cache fs stage_id _) as [ops res].
    simpl in Hload. rewrite Hload by by left.
    destruct (IH (observed ∪ {[stage_id]}) (tr ++ ops)) as [tr' Hrest].
    { intros id st Hin. apply Hloads. by right. }
    exists tr'.
    destruct (cache !! stage_id) as [entry|] eqn:Hid.
    + rewrite insert_id by done. rewrite Hrest. do 2 f_equal. set_solver.
    + rewrite delete_id by done. rewrite Hrest. do 2 f_equal. set_solver.
Qed.

Lemma refresh_stage_repo_details_settles (w w1 : widget) (fs : filesystem)
    (stages : list (string * Stage.t)) :
  NoDup stages.*1 →
  _refresh_stage_repo_details w fs stages = (w1, Returned tt) →
  cache_settled (_repo_index_cache w1) fs stages.
Proof.
  intros Hnodup Hfirst.
  destruct (refresh_stage_repo_details_lookup w w1 fs stages Hfirst)
    as [Hout Hlookup].
  split; [|done].
  intros id stage Hin. specialize (Hlookup Hnodup id stage Hin).
  unfold _refresh_stage_repo_details in Hfirst.
  destruct (refresh_loop fs stages (_repo_index_cache w) ∅ (trace w))
    as [[cache tr] [observed|e]] eqn:Hloop; [|done].
  pose proof (refresh_loop_loads _ _ _ _ _ _ _ _ Hnodup Hloop id stage Hin) as Hload.
  assert (_repo_index_cache w1 !! id = cache !! id) as Heq.
  { rewrite Hlookup, Hload. simpl. by destruct (cache !! id). }
  rewrite Heq. by eapply load_repo_index_payload_again.
Qed.

Lemma refresh_stage_repo_details_settled (w : widget) (fs : filesystem)
    (stages : list (string * Stage.t)) :
  cache_settled (_repo_index_cache w) fs stages →
  ∃ tr, _refresh_stage_repo_details w fs stages = (with_trace tr w, Returned tt).
Proof.
  intros [Hloads Hout]. unfold _refresh_stage_repo_details.
  destruct (refresh_loop_stable fs stages (_repo_index_cache w) ∅ (trace w) Hloads)
    as [tr' ->].
  exists tr'. f_equal.
  assert (_prune_stale_repo_cache (_repo_index_cache w) (∅ ∪ list_to_set stages.*1)
          = _repo_index_cache w) as ->.
  { apply map_eq. intros id. rewrite prune_stale_repo_cache_lookup.
    case_decide as Hobs; [done|]. symmetry. apply Hout. set_solver. }
  by destruct w.
Qed.

Lemma load_repo_index_payload_cached_ops (cache : gmap string CacheEntry.t)
    (fs : filesystem) (stage_id : string) (metadata : list (string * json))
    (cached : CacheEntry.t) :
  cache !! stage_id = Some cached →
  (_load_repo_index_payload cache fs stage_id metadata).2 = Returned (Some cached) →
  ∃ p, (_load_repo_index_payload cache fs stage_id metadata).1 = [EvStat p].
Proof.
  intros Hcached.
  unfold _load_repo_index_payload, _safe_stat, _read_json_payload.
  destruct (negb _); simpl; [done|].
  destruct (fs _) as [f| |e]; simpl; [|done..].
  rewrite Hcached.
  destruct (Z.eqb _ _) eqn:Hm; simpl; [by eexists|].
  destruct (decoded f) as [[| | | | | |object]| |e]; simpl; try done.
  destruct (_normalize_repo_entries _ _) as [entries|e]; simpl; [|done].
  intros [= Heq]. rewrite <- Heq in Hm. simpl in Hm.
  by rewrite Z.eqb_refl in Hm.
Qed.

(** Refreshing again changes nothing.  After a refresh of the repo details
    that returns, a second one with the same stages and files returns too
    and leaves the widget as it is, but for the file operations it adds to
    the trace; and it reads no file of a stage that has a cache entry. *)
Theorem refresh_again_is_stable (w w1 : widget) (fs : filesystem)
    (stages : list (string * Stage.t)) :
  NoDup stages.*1 →
  _refresh_stage_repo_details w fs stages = (w1, Returned tt) →
  (∃ tr, _refresh_stage_repo_details w1 fs stages = (with_trace tr w1, Returned tt))
  ∧ ∀ id stage cached, (id, stage) ∈ stages →
      _repo_index_cache w1 !! id = Some cached →
      ∃ p, (_load_repo_index_payload (_repo_index_cache w1) fs id
              (default [] (Stage.metadata stage))).1 = [EvStat p].
Proof.
  intros Hnodup Hfirst.
  pose proof (refresh_stage_repo_details_settles w w1 fs stages Hnodup Hfirst)
    as Hsettled.
  split; [by apply refresh_stage_repo_details_settled|].
  intros id stage cached Hin Hcached.
  apply (load_repo_index_payload_cached_ops _ _ _ _ cached Hcached).
  destruct Hsettled as [Hloads _]. by rewrite (Hloads id stage Hin), Hcached.
Qed.

End Again.

(** ** Polling again *)

Lemma stage_item_again (title : string) (stage : option Stage.t) (it : item) :
  stage_item title stage (stage_item title stage it) = stage_item title stage it.
Proof. done. Qed.

Lemma apply_loop_again (defs : list (string * string)) (items : gmap string nat)
    (stages : list (string * Stage.t)) (rows : list item) (b b' : bool) :
  NoDup defs.*1 →
  (∀ id1 id2 r, items !! id1 = Some r → items !! id2 = Some r → id1 = id2) →
  (apply_loop defs items stages (apply_loop defs items stages rows b).1 b').1
  = (apply_loop defs items stages rows b).1.
Proof.
  intros Hnodup Hinj. set (rows1 := (apply_loop defs items stages rows b).1).
  assert (length rows1 = length rows) as Hlen by apply apply_loop_length.
  apply list_eq. intros r.
  destruct (decide (Exists (fun d => items !! d.1 = Some r) defs)) as [Hex|Hno].
  - apply Exists_exists in Hex as ([id title] & Hin & Hrow). simpl in Hrow.
    destruct (rows !! r) as [it|] eqn:Hit.
    + assert (rows1 !! r = Some (stage_item title (assoc_get id stages) it)) as H1
        by by apply apply_loop_lookup.
      rewrite H1.
      rewrite (apply_loop_lookup defs items stages rows1 b' id title r _
                 Hnodup Hinj Hin Hrow H1).
      by rewrite stage_item_again.
    + assert (length rows ≤ r) as Hr by by apply lookup_ge_None.
      rewrite !(lookup_ge_None_2 _ r); [done|lia|].
      rewrite apply_loop_length. lia.
  - apply apply_loop_other. intros id t Hin Hrow. apply Hno.
    apply Exists_exists. by exists (id, t).
Qed.

Lemma apply_loop_flag_length (defs : list (string * string))
    (items : gmap string nat) (stages : list (string * Stage.t))
    (rows rows' : list item) :
  length rows' = length rows →
  (apply_loop defs items stages rows' true).2
  = (apply_loop defs items stages rows true).2.
Proof.
  intros Hlen.
  pose proof (apply_loop_flag defs items stages rows true) as H.
  pose proof (apply_loop_flag defs items stages rows' true) as H'.
  assert ((apply_loop defs items stages rows' true).2 = true
          ↔ (apply_loop defs items stages rows true).2 = true) as Hiff.
  { rewrite H, H'. split; intros [_ Hall]; (split; [done|]);
      intros id t Hin (row & Hrow & Hsome); apply (Hall id t Hin);
      exists row; (split; [done|]); rewrite lookup_lt_is_Some in *; lia. }
  destruct (apply_loop defs items stages rows' true).2,
           (apply_loop defs items stages rows true).2; try done;
    destruct Hiff as [H1 H2]; [by rewrite H1|by rewrite H2].
Qed.

Lemma discover_loop_congr (stages : list (string * Stage.t)) (w w' : widget) :
  _checklist w' = _checklist w →
  _items w' = _items w →
  _stage_definitions w' = _stage_definitions w →
  _checklist (discover_loop stages w') = _checklist (discover_loop stages w)
  ∧ _items (discover_loop stages w') = _items (discover_loop stages w)
  ∧ _stage_definitions (discover_loop stages w')
    = _stage_definitions (discover_loop stages w).
Proof.
  revert w w'. induction stages as [|[stage_id stage] rest IH];
    intros w w' Hc Hi Hd; simpl; [done|].
  rewrite Hi. destruct (_items w !! stage_id); [by apply IH|].
  apply IH; simpl; by rewrite ?Hc, ?Hi, ?Hd.
Qed.

Lemma merge_stages_congr (w w' : widget) (stages : list (string * Stage.t)) :
  _checklist w' = _checklist w →
  _items w' = _items w →
  _stage_definitions w' = _stage_definitions w →
  _checklist (merge_stages w' stages).1 = _checklist (merge_stages w stages).1
  ∧ _items (merge_stages w' stages).1 = _items (merge_stages w stages).1
  ∧ _stage_definitions (merge_stages w' stages).1
    = _stage_definitions (merge_stages w stages).1
  ∧ (merge_stages w' stages).2 = (merge_stages w stages).2.
Proof.
  intros Hc Hi Hd. rewrite !merge_stages_fields. simpl.
  destruct (discover_loop_congr stages w w' Hc Hi Hd) as (-> & -> & ->). done.
Qed.

Lemma merge_stages_again (w : widget) (stages : list (string * Stage.t)) :
  widget_wf w →
  merge_stages (merge_stages w stages).1 stages = merge_stages w stages.
Proof.
  intros Hwf.
  pose proof (discover_loop_wf stages w Hwf) as [_ Hinj _ Hnodup].
  rewrite (merge_stages_fields w). simpl.
  set (w1 := discover_loop stages w) in *.
  set (applied := apply_loop (_stage_definitions w1) (_items w1) stages
                             (_checklist w1) true).
  rewrite merge_stages_fields.
  rewrite (discover_loop_tracked stages (with_checklist applied.1 w1)).
  - simpl. subst applied. rewrite apply_loop_again by done.
    f_equal. apply apply_loop_flag_length, apply_loop_length.
  - intros id Hid. simpl. by apply discover_loop_covers.
Qed.

Lemma widget_eq_but_trace (a b : widget) :
  _stage_definitions a = _stage_definitions b →
  _items a = _items b →
  _checklist a = _checklist b →
  _checklist_selection a = _checklist_selection b →
  _completion_triggered a = _completion_triggered b →
  _repo_index_cache a = _repo_index_cache b →
  _selected_stage_id a = _selected_stage_id b →
  _status_label a = _status_label b →
  _detail_table a = _detail_table b →
  _timer_active a = _timer_active b →
  with_trace [] a = with_trace [] b.
Proof. destruct a, b. simpl. by intros -> -> -> -> -> -> -> -> -> ->. Qed.

Section PollAgain.
Context {rt : PyRuntime}.

Lemma refresh_stage_repo_details_selected (w : widget) (fs : filesystem)
    (stages : list (string * Stage.t)) :
  _selected_stage_id (_refresh_stage_repo_details w fs stages).1
  = _selected_stage_id w.
Proof.
  unfold _refresh_stage_repo_details.
  by destruct (refresh_loop _ _ _ _ _) as [[cache tr] [observed|e]].
Qed.

(** The parts of an update: its outcome is that of the refresh of the repo
    details; it keeps [_selected_stage_id]; and it sets the banner only
    when it returns, the snapshot has stages and completion has not been
    triggered. *)
Lemma update_from_snapshot_parts (w : widget) (fs : filesystem)
    (snapshot : Snapshot.t) :
  let stages := snapshot_stages snapshot in
  let merged := merge_stages w stages in
  let refreshed := _refresh_stage_repo_details merged.1 fs stages in
  let updated := _update_from_snapshot w fs snapshot in
  updated.2 = refreshed.2
  ∧ _selected_stage_id updated.1 = _selected_stage_id w
  ∧ _status_label updated.1
    = match refreshed.2, stages with
      | Returned _, _ :: _ =>
          if _completion_triggered w then _status_label w
          else if merged.2
               then "All stages reported. Waiting for tooling shutdown..."
               else "Tracking orchestration stages..."
      | _, _ => _status_label w
      end.
Proof.
  intros stages merged refreshed updated.
  subst updated refreshed merged. unfold _update_from_snapshot. fold stages.
  pose proof (merge_stages_view w stages) as (_ & Hsel1 & _ & Hl1).
  pose proof (merge_stages_triggered w stages) as (Ht1 & _).
  destruct (merge_stages w stages) as [w1 all_done]. simpl in *.
  pose proof (refresh_stage_repo_details_selected w1 fs stages) as Hsel2.
  pose proof (refresh_stage_repo_details_board w1 fs stages)
    as [(_ & _ & _ & Ht2 & _) Hl2].
  destruct (_refresh_stage_repo_details w1 fs stages) as [w2 [[]|e]];
    simpl in *; [|split_and!; congruence].
  pose proof (update_detail_view_table w2 (_current_stage_id w2)) as (_ & _ & Hsel3).
  pose proof (update_detail_view_trace w2 (_current_stage_id w2)) as (_ & _ & Hl3).
  pose proof (update_detail_view_board w2 (_current_stage_id w2))
    as (_ & _ & _ & Ht3 & _).
  set (w3 := _update_detail_view w2 (_current_stage_id w2)) in *.
  assert (_completion_triggered w3 = _completion_triggered w) as Ht by congruence.
  destruct stages as [|s rest]; simpl.
  - split_and!; congruence.
  - rewrite Ht. destruct (_completion_triggered w); simpl.
    + split_and!; congruence.
    + destruct all_done; simpl; split_and!; congruence.
Qed.

(** A poll with a snapshot, unfolded: the update, and then the completion
    when the update returned, the worker is done and completion has not
    been triggered. *)
Lemma refresh_snapshot_parts (w : widget) (snap : Snapshot.t) (fs : filesystem)
    (worker_done : bool) :
  let updated := _update_from_snapshot w fs snap in
  _refresh_snapshot w (Some snap) fs worker_done
  = match updated.2 with
    | Returned _ =>
        if worker_done && negb (_completion_triggered w) then
          (_handle_completion
             (with_status_label "Tooling finished. Command center unlocking..."
                                updated.1),
           Returned tt)
        else (updated.1, Returned tt)
    | Raised e => (updated.1, Raised e)
    end.
Proof.
  intros updated. subst updated. unfold _refresh_snapshot.
  destruct (update_from_snapshot_board w fs snap) as (_ & _ & _ & Ht & _).
  pose proof (merge_stages_triggered w (snapshot_stages snap)) as (Ht' & _).
  rewrite Ht' in Ht.
  destruct (_update_from_snapshot w fs snap) as [w1 [[]|e]]; simpl in *; [|done].
  by rewrite Ht.
Qed.

(** Polling again changes nothing.  On a well-formed widget, when a poll
    returns, a second poll that finds the same snapshot, the same files and
    the same state of the worker returns too, and leaves every part of the
    widget as the first left it, but for the file operations added to the
    trace: the same rows, stage definitions, selection, cache, table and
    banner, and no second completion. *)
Theorem poll_again_is_stable (w : widget) (snapshot : option Snapshot.t)
    (fs : filesystem) (worker_done : bool) :
  widget_wf w →
  let first := _refresh_snapshot w snapshot fs worker_done in
  first.2 = Returned tt →
  let second := _refresh_snapshot first.1 snapshot fs worker_done in
  second.2 = Returned tt
  ∧ with_trace [] second.1 = with_trace [] first.1
  ∧ occurrences EvBoardCompleted (trace second.1)
    = occurrences EvBoardCompleted (trace first.1).
Proof.
  intros Hwf first Hret second.
  assert (Hocc : second.2 = Returned tt →
            _completion_triggered second.1 = _completion_triggered first.1 →
            occurrences EvBoardCompleted (trace second.1)
            = occurrences EvBoardCompleted (trace first.1)).
  { intros _ Ht. subst second.
    destruct (refresh_snapshot_completion first.1 snapshot fs worker_done)
      as [[[_ Hsame] | (Hf & Htrue & _)] _]; [apply Hsame; by right|congruence]. }
  destruct snapshot as [snap|].
  2:{ subst second first. unfold _refresh_snapshot in *. simpl in *.
      destruct (_completion_triggered w) eqn:Ht; simpl; rewrite Ht; done. }
  set (stages := snapshot_stages snap) in *.
  set (u1 := _update_from_snapshot w fs snap) in *.
  assert (first = match u1.2 with
                  | Returned _ =>
                      if worker_done && negb (_completion_triggered w) then
                        (_handle_completion
                           (with_status_label
                              "Tooling finished. Command center unlocking..." u1.1),
                         Returned tt)
                      else (u1.1, Returned tt)
                  | Raised e => (u1.1, Raised e)
                  end) as Hfirst by apply refresh_snapshot_parts.
  destruct (update_from_snapshot_parts w fs snap) as (Hout1 & Hsel1 & Hlabel1).
  fold stages u1 in Hout1, Hsel1, Hlabel1.
  destruct (update_from_snapshot_board w fs snap) as (Hc1 & Hi1 & Hd1 & Ht1 & Htm1).
  fold stages u1 in Hc1, Hi1, Hd1, Ht1, Htm1.
  pose proof (merge_stages_triggered w stages) as (Htm & _ & Hcm & _).
  rewrite Htm in Ht1.
  pose proof (update_from_snapshot_cache w fs snap) as Hcache1.
  fold stages u1 in Hcache1.
  destruct (u1.2) as [[]|e] eqn:Hu1; [|by rewrite Hfirst in Hret].
  (* the first refresh of the repo details returned, so the cache is settled *)
  assert (cache_settled (_repo_index_cache u1.1) fs stages) as Hsettled.
  { rewrite Hcache1.
    destruct (_refresh_stage_repo_details (merge_stages w stages).1 fs stages)
      as [w2 res] eqn:Hrefresh. simpl in *. subst res.
    apply (refresh_stage_repo_details_settles _ w2 fs stages
             (collect_stages_nodup _) Hrefresh). }
  (* what the first poll left *)
  assert (_checklist first.1 = _checklist u1.1
          ∧ _items first.1 = _items u1.1
          ∧ _stage_definitions first.1 = _stage_definitions u1.1
          ∧ _checklist_selection first.1 = _checklist_selection u1.1
          ∧ _repo_index_cache first.1 = _repo_index_cache u1.1
          ∧ _selected_stage_id first.1 = _selected_stage_id u1.1
          ∧ (_completion_triggered first.1 = false →
             first.1 = u1.1 ∧ worker_done && negb (_completion_triggered w) = false)
          ∧ (worker_done = true → _completion_triggered first.1 = true))
    as (Hfc & Hfi & Hfd & Hfs & Hfcache & Hfsel & Hfnot & Hfdone).
  { rewrite Hfirst.
    destruct (worker_done && negb (_completion_triggered w)) eqn:Hcomplete; simpl.
    - match goal with |- context [_handle_completion ?x] =>
        pose proof (handle_completion_view x) as (Hs' & _ & Hca & _);
        pose proof (handle_completion_checklist x) as (Hck & Hit & Hdf);
        pose proof (handle_completion_trace x) as Htr;
        set (w2 := _handle_completion x) in * end.
      simpl in *. apply andb_true_iff in Hcomplete as [-> Hnot].
      apply negb_true_iff in Hnot. rewrite Ht1, Hnot in Htr.
      destruct Htr as (Htrig & _).
      split_and!; try done; [|by intros; congruence].
      unfold w2, _handle_completion. simpl. by rewrite Ht1, Hnot.
    - split_and!; try done. intros ->. simpl in Hcomplete.
      apply negb_false_iff in Hcomplete. congruence. }
  (* the second update *)
  set (u2 := _update_from_snapshot first.1 fs snap) in *.
  destruct (update_from_snapshot_parts first.1 fs snap) as (Hout2 & Hsel2 & Hlabel2).
  fold stages u2 in Hout2, Hsel2, Hlabel2.
  destruct (update_from_snapshot_board first.1 fs snap)
    as (Hc2 & Hi2 & Hd2 & Ht2 & Htm2).
  fold stages u2 in Hc2, Hi2, Hd2, Ht2, Htm2.
  pose proof (merge_stages_triggered first.1 stages) as (Htm' & _ & Hcm' & Htimer').
  rewrite Htm' in Ht2. rewrite Htimer' in Htm2.
  pose proof (update_from_snapshot_cache first.1 fs snap) as Hcache2.
  fold stages u2 in Hcache2.
  destruct (update_from_snapshot_view first.1 fs snap) as (Hs2 & _ & Hview2).
  fold u2 in Hs2, Hview2.
  destruct (merge_stages_congr (merge_stages w stages).1 first.1 stages)
    as (Hmc & Hmi & Hmd & Hmflag); [congruence..|].
  rewrite (merge_stages_again w stages Hwf) in Hmc, Hmi, Hmd, Hmflag.
  destruct (refresh_stage_repo_details_settled (merge_stages first.1 stages).1
              fs stages) as [tr Hrefresh2].
  { rewrite Hcm'. by rewrite Hfcache. }
  rewrite Hrefresh2 in Hout2, Hlabel2, Hcache2. simpl in Hout2, Hlabel2, Hcache2.
  rewrite Hcm' in Hcache2.
  assert (second = u2) as Hsecond.
  { subst second. rewrite refresh_snapshot_parts. fold u2. rewrite Hout2.
    assert ((u2.1, Returned tt) = u2) as Hpair
      by (rewrite <- Hout2; symmetry; apply surjective_pairing).
    destruct worker_done; simpl; [|done].
    by rewrite (Hfdone eq_refl). }
  assert (detail_view_current first.1) as Hview1.
  { destruct (refresh_snapshot_view w (Some snap) fs worker_done) as (_ & _ & _ & Hv).
    by apply Hv. }
  assert (_current_stage_id u2.1 = _current_stage_id first.1) as Hcur
    by (apply current_stage_id_same; congruence).
  assert (_status_label u2.1 = _status_label first.1) as Hlabel.
  { rewrite Hlabel2. destruct stages as [|s rest] eqn:Hstages; [done|].
    destruct (_completion_triggered first.1) eqn:Htrig; [done|].
    destruct (Hfnot eq_refl) as [Heq _].
    rewrite Hmflag, Heq, Hlabel1, <- Hout1.
    assert (_completion_triggered w = false) as -> by (by rewrite <- Ht1, <- Heq).
    done. }
  rewrite Hsecond. split_and!.
  - done.
  - apply widget_eq_but_trace; try congruence.
    unfold detail_view_current in Hview1, Hview2.
    rewrite (Hview2 Hout2), Hview1. congruence.
  - rewrite <- Hsecond. apply Hocc; rewrite Hsecond; [done|congruence].
Qed.

End PollAgain.

(** ** The further properties on the stage alpha *)

(** Completion is final, at a widget completed by hand, then polled with
    the worker done and closed. *)
Lemma completion_is_final_witness :
  let ops := [OpRefreshSnapshot (Some example_snapshot)
                (example_fs 1 (Ok example_index)) true; OpClose] in
  _completion_triggered
    (run (rt := example_runtime) (_handle_completion (init [("alpha", "Alpha")])) ops)
  = true
  ∧ _status_label
      (run (rt := example_runtime) (_handle_completion (init [("alpha", "Alpha")])) ops)
    = "Initializing orchestration tooling...".
Proof.
  intros ops.
  destruct (completion_is_final (rt := example_runtime)
              (_handle_completion (init [("alpha", "Alpha")])) ops eq_refl)
    as (Ht & Hl & _).
  split; [exact Ht|]. rewrite Hl. reflexivity.
Defined.

(** What is cached is normalized, after a poll that reads an index with one
    entry and one stray string. *)
Lemma cached_entries_normal_witness :
  cache_normal
    (_repo_index_cache
       (run (rt := example_runtime) (init [("alpha", "Alpha")])
          [OpRefreshSnapshot (Some example_snapshot)
             (example_fs 1 (Ok example_index)) false])).
Proof.
  apply (cached_entries_normal (rt := example_runtime) [("alpha", "Alpha")]
           [OpRefreshSnapshot (Some example_snapshot)
              (example_fs 1 (Ok example_index)) false]
           example_str_nonempty).
Defined.

Example poll_reads_index :
  CacheEntry.entries
    <$> (_repo_index_cache
           (run (rt := example_runtime) (init [("alpha", "Alpha")])
              [OpRefreshSnapshot (Some example_snapshot)
                 (example_fs 1 (Ok example_index)) false]) !! "alpha")
  = Some [RepoEntry.Make "core" "core" "pending" "" [] None].
Proof. reflexivity. Qed.

(** A missing index file clears the entry cached for the stage alpha. *)
Lemma missing_index_clears_entry_witness :
  _repo_index_cache example_widget !! "alpha" = Some example_cached
  ∧ _repo_index_cache
      (_refresh_stage_repo_details (rt := example_runtime) example_widget
         (fun _ => Caught) [("alpha", example_stage)]).1 !! "alpha" = None.
Proof.
  split; [reflexivity|].
  destruct (missing_index_clears_entry (rt := example_runtime) example_widget
              (fun _ => Caught) [] [] "alpha" example_stage)
    as [Hmissing _].
  - apply NoDup_singleton.
  - reflexivity.
  - destruct Hmissing as (_ & _ & Hcleared); [right; reflexivity|].
    exact Hcleared.
Defined.

(** Refreshing again, after a refresh that read the index of alpha. *)
Lemma refresh_again_is_stable_witness :
  let refreshed :=
    (_refresh_stage_repo_details (rt := example_runtime) example_widget
       (example_fs 2 (Ok example_index)) [("alpha", example_stage)]).1 in
  ∃ tr,
    _refresh_stage_repo_details (rt := example_runtime) refreshed
      (example_fs 2 (Ok example_index)) [("alpha", example_stage)]
    = (with_trace tr refreshed, Returned tt).
Proof.
  intros refreshed.
  apply (refresh_again_is_stable (rt := example_runtime) example_widget refreshed
           (example_fs 2 (Ok example_index)) [("alpha", example_stage)]).
  - apply NoDup_singleton.
  - reflexivity.
Defined.

(** Polling again, with the worker done: the second poll completes nothing
    and changes nothing but the trace. *)
Lemma poll_again_is_stable_witness :
  let first :=
    _refresh_snapshot (rt := example_runtime) (init [("alpha", "Alpha")])
      (Some example_snapshot) (example_fs 1 (Ok example_index)) true in
  let second :=
    _refresh_snapshot (rt := example_runtime) first.1
      (Some example_snapshot) (example_fs 1 (Ok example_index)) true in
  second.2 = Returned tt
  ∧ with_trace [] second.1 = with_trace [] first.1
  ∧ occurrences EvBoardCompleted (trace second.1)
    = occurrences EvBoardCompleted (trace first.1).
Proof.
  intros first second.
  apply (poll_again_is_stable (rt := example_runtime) (init [("alpha", "Alpha")])
           (Some example_snapshot) (example_fs 1 (Ok example_index)) true).
  - apply init_wf. apply NoDup_singleton.
  - reflexivity.
Defined.
